(** * Streaming transcription pipeline: accumulator, ingest queue, worker,
  broadcast hub and session handler.

Shallow embedding of [transcript_server.py] and of the capture/worker
pipeline of [realtime_transcribe.py].  Python text is a list of Unicode
code points, the module-level globals of the server are one record that
is threaded through every call, the connection set is a finite set of
connection handles, and the external collaborators (recognition engine,
event loop, remote peers) are parameters that answer each call. *)

From stdpp Require Import base decidable list gmap sets strings.
From Stdlib Require Import ZArith NArith Lia.

Set Warnings "-register-all,-clear-no-such-hyp".
Local Open Scope N_scope.

(** ** Python text *)

Module PyStr.

(** A [str] is its sequence of code points. *)
Definition str := list N.

(** [str.isspace] on one code point: the code points the interpreter
    classifies as whitespace, which are the ones [str.strip()] removes. *)
Definition isspace (c : N) : bool :=
  ((9 <=? c) && (c <=? 13)) || ((28 <=? c) && (c <=? 32))
  || (c =? 133) || (c =? 160) || (c =? 5760)
  || ((8192 <=? c) && (c <=? 8202))
  || (c =? 8232) || (c =? 8233) || (c =? 8239) || (c =? 8287)
  || (c =? 12288).

Fixpoint lstrip (s : str) : str :=
  match s with
  | [] => []
  | c :: r => if isspace c then lstrip r else s
  end.

Definition rstrip (s : str) : str := reverse (lstrip (reverse s)).

(** [s.strip()] *)
Definition strip (s : str) : str := rstrip (lstrip s).

(** Truth value of a string: [bool(s)]. *)
Definition truthy (s : str) : bool :=
  match s with [] => false | _ :: _ => true end.

(** A literal of the source, as code points. *)
Definition lit (s : string) : str :=
  map Ascii.N_of_ascii (String.list_ascii_of_string s).
Arguments lit : simpl never.

(** [s] consists of whitespace only (the empty string included). *)
Definition blank (s : str) : Prop := Forall (λ c, isspace c = true) s.

(** [s] neither starts nor ends with whitespace. *)
Definition trimmed (s : str) : Prop := strip s = s.

(** The first code point of [s], if there is one, is not whitespace. *)
Definition clean_head (s : str) : Prop :=
  match s with [] => True | c :: _ => isspace c = false end.

(** The same for the last one. *)
Definition clean_last (s : str) : Prop := clean_head (reverse s).

End PyStr.
Import PyStr.
Arguments lit : simpl never.

(** ** Python values *)

(** A Python float, as mantissa and binary exponent; the pipeline only
  carries such values around and tests them for zero. *)
Record pyfloat := PyFloat { mantissa : Z; exponent : Z }.

(** The values that travel through the pipeline: what the engine returns
  in a result tuple, what [json.loads] returns and what [json.dumps] is
  given. *)
Inductive pyval :=
| PNone
| PBool (b : bool)
| PInt (z : Z)
| PFloat (x : pyfloat)
| PStr (s : str)
| PList (l : list pyval)
| PDict (d : list (str * pyval)).

(** [bool(v)] *)
Definition py_truthy (v : pyval) : bool :=
  match v with
  | PNone => false
  | PBool b => b
  | PInt z => negb (z =? 0)%Z
  | PFloat x => negb (mantissa x =? 0)%Z
  | PStr s => truthy s
  | PList l => match l with [] => false | _ :: _ => true end
  | PDict d => match d with [] => false | _ :: _ => true end
  end.

(** [v or 0] *)
Definition or_zero (v : pyval) : pyval := if py_truthy v then v else PInt 0.

(** [d.get(k)] on a dict given by its items. *)
Fixpoint dict_get (d : list (str * pyval)) (k : str) : option pyval :=
  match d with
  | [] => None
  | (k', v) :: r => if bool_decide (k' = k) then Some v else dict_get r k
  end.

(** [v == s] for the result [v] of [d.get(k)] ([None] when the key is
    absent) and a string literal [s]. *)
Definition eq_str (v : option pyval) (s : str) : bool :=
  match v with
  | Some (PStr t) => bool_decide (t = s)
  | _ => false
  end.

(** An exception, by the name of its class or its message. *)
Definition exn := string.

(** What a call does: return a value or raise. *)
Inductive outcome (A : Type) :=
| Return (a : A)
| Raise (e : exn).
Arguments Return {A} a.
Arguments Raise {A} e.

(** A result tuple of the engine, [(start_time, end_time, text)]. *)
Record span := Span {
  start_time : pyval;
  end_time : pyval;
  text : pyval
}.

(** A connection handle. *)
Definition conn := positive.

(** ** The server's globals and its surroundings *)

Inductive log_line :=
| LogConnected (total : nat)
| LogDisconnected (total : nat)
| LogInitialized (len : nat)
| LogUpdate (count : N) (len : nat)
| LogHandlerError (e : exn).

(** What [await asyncio.wait_for(task, timeout)] does for one send. *)
Inductive wait_outcome :=
| SendDone
| SendTimeout
| SendConnectionClosed
| SendOtherError.

(** What [asyncio.get_event_loop()] finds in the calling thread. *)
Inductive loop_status :=
| NoCurrentLoop      (* raises RuntimeError *)
| LoopRunning
| LoopNotRunning.

Record env := Env {
  loop : loop_status;
  (** [asyncio.create_task(connection.send(message))] raises *)
  create_task_raises : conn → bool;
  (** outcome of awaiting the send task of a connection under a timeout
      given in milliseconds *)
  wait_for : conn → pyval → N → wait_outcome;
  (** [loop.time()] at the n-th update *)
  loop_time : N → pyfloat
}.

(** One awaited send of a broadcast. *)
Record attempt := Attempt {
  a_conn : conn;
  a_message : pyval;
  a_timeout : N;
  a_outcome : wait_outcome
}.

Record server := Server {
  connections : gset conn;
  full_transcript : str;
  update_count : N;
  stdout : list log_line;
  (** arguments of the calls of [broadcast_full_transcript], oldest first *)
  broadcasts : list str;
  (** awaited sends of the broadcasts, oldest first *)
  attempts : list attempt;
  (** [websocket.send] calls of the session handlers, oldest first *)
  sent : list (conn * pyval)
}.

Definition initial_server : server :=
  Server ∅ [] 0 [] [] [] [].

Definition set_connections (c : gset conn) (s : server) : server :=
  Server c (full_transcript s) (update_count s) (stdout s) (broadcasts s)
    (attempts s) (sent s).
Definition set_full_transcript (t : str) (s : server) : server :=
  Server (connections s) t (update_count s) (stdout s) (broadcasts s)
    (attempts s) (sent s).
Definition set_update_count (n : N) (s : server) : server :=
  Server (connections s) (full_transcript s) n (stdout s) (broadcasts s)
    (attempts s) (sent s).
Definition print (l : log_line) (s : server) : server :=
  Server (connections s) (full_transcript s) (update_count s)
    (stdout s ++ [l]) (broadcasts s) (attempts s) (sent s).
Definition log_broadcast (t : str) (s : server) : server :=
  Server (connections s) (full_transcript s) (update_count s) (stdout s)
    (broadcasts s ++ [t]) (attempts s) (sent s).
Definition log_attempts (l : list attempt) (s : server) : server :=
  Server (connections s) (full_transcript s) (update_count s) (stdout s)
    (broadcasts s) (attempts s ++ l) (sent s).
Definition log_sent (c : conn) (m : pyval) (s : server) : server :=
  Server (connections s) (full_transcript s) (update_count s) (stdout s)
    (broadcasts s) (attempts s) (sent s ++ [(c, m)]).

(** ** BroadcastHub *)

Module Hub.

Definition register (websocket : conn) (s : server) : server :=
  let s := set_connections ({[websocket]} ∪ connections s) s in
  print (LogConnected (size (connections s))) s.

Definition unregister (websocket : conn) (s : server) : server :=
  let s := set_connections (connections s ∖ {[websocket]}) s in
  print (LogDisconnected (size (connections s))) s.

(** The per-subscriber timeout of the awaited send, [timeout=0.1],
    in milliseconds. *)
Definition send_timeout : N := 100.

Definition full_message (full_text : str) (now : pyfloat) : pyval :=
  PDict [ (lit "type", PStr (lit "transcript"));
          (lit "mode", PStr (lit "full"));
          (lit "text", PStr full_text);
          (lit "timestamp", PFloat now) ].

(** First loop: one send task per connection; a connection whose task
    cannot be created goes to [disconnected]. *)
Fixpoint create_tasks (E : env) (cs : list conn)
  : list conn * list conn :=
  match cs with
  | [] => ([], [])
  | c :: r =>
      let '(disconnected, send_tasks) := create_tasks E r in
      if create_task_raises E c then (c :: disconnected, send_tasks)
      else (disconnected, c :: send_tasks)
  end.

Definition wait_failed (o : wait_outcome) : bool :=
  match o with SendDone => false | _ => true end.

(** Second loop: await every task under the timeout; a task that times
    out or raises puts its connection in [disconnected]. *)
Fixpoint await_tasks (E : env) (message : pyval) (send_tasks : list conn)
  : list conn * list attempt :=
  match send_tasks with
  | [] => ([], [])
  | c :: r =>
      let o := wait_for E c message send_timeout in
      let '(disconnected, log) := await_tasks E message r in
      (if wait_failed o then c :: disconnected else disconnected,
       Attempt c message send_timeout o :: log)
  end.

(** Third loop: [connections.discard(conn)] for every disconnected one. *)
Fixpoint discard_all (disconnected : list conn) (cs : gset conn)
  : gset conn :=
  match disconnected with
  | [] => cs
  | c :: r => discard_all r (cs ∖ {[c]})
  end.

Definition broadcast_full_transcript (E : env) (now : pyfloat)
    (full_text : str) (s : server) : server :=
  let s := log_broadcast full_text s in
  if bool_decide (connections s = ∅) then s
  else
    let message := full_message full_text now in
    let '(disconnected1, send_tasks) :=
      create_tasks E (elements (connections s)) in
    let '(disconnected2, log) := await_tasks E message send_tasks in
    set_connections
      (discard_all (disconnected1 ++ disconnected2) (connections s))
      (log_attempts log s).

(** A subscriber keeps its place in a broadcast of [message] when its
    send task is created and the awaited send completes in time. *)
Definition survives (E : env) (message : pyval) (c : conn) : bool :=
  negb (create_task_raises E c)
  && negb (wait_failed (wait_for E c message send_timeout)).

End Hub.

(** ** TranscriptAccumulator *)

Module Accumulator.

(** [text.strip()] when [text] is true, the empty string otherwise; a
    true value that is not a string has no [strip]. *)
Definition new_text_of (text : pyval) : outcome str :=
  if py_truthy text then
    match text with
    | PStr t => Return (strip t)
    | _ => Raise "AttributeError"%string
    end
  else Return [].

(** The callback given to the pipeline.  With a running loop the broadcast
    is handed to that loop, with no loop in the calling thread it is run
    on a loop of its own, with a loop that does not run nothing is
    broadcast; a broadcast handed to the loop is taken to run at once. *)
Definition transcript_callback (E : env)
    (start_time end_time text : pyval) (s : server)
  : server * outcome unit :=
  match new_text_of text with
  | Raise e => (s, Raise e)
  | Return new_text =>
      if negb (truthy new_text) then (s, Return tt)
      else
        let s :=
          if truthy (full_transcript s)
          then set_full_transcript
                 (strip (full_transcript s ++ lit " " ++ new_text)) s
          else print (LogInitialized (length new_text))
                 (set_full_transcript new_text s) in
        let s := set_update_count (update_count s + 1) s in
        let s :=
          if update_count s mod 10 =? 0
          then print (LogUpdate (update_count s)
                        (length (full_transcript s))) s
          else s in
        match loop E with
        | LoopRunning | NoCurrentLoop =>
            (Hub.broadcast_full_transcript E
               (loop_time E (update_count s)) (full_transcript s) s,
             Return tt)
        | LoopNotRunning => (s, Return tt)
        end
  end.

(** The transcript the callback leaves, as a function of the one it
    finds and of the text it is given. *)
Definition next_transcript (full : str) (text : pyval) : str :=
  match new_text_of text with
  | Raise _ => full
  | Return new_text =>
      if negb (truthy new_text) then full
      else if truthy full then strip (full ++ lit " " ++ new_text)
      else new_text
  end.

(** Folding one committed span: the callback on its three components. *)
Definition fold (E : env) (s : server) (sp : span) : server :=
  (transcript_callback E (start_time sp) (end_time sp) (text sp) s).1.

(** Folding a sequence of spans, in order. *)
Definition fold_all (E : env) (s : server) (sps : list span) : server :=
  foldl (fold E) s sps.

(** A fresh accumulator: the globals as the module sets them, whatever
    the connections are. *)
Definition fresh (conns : gset conn) : server :=
  Server conns [] 0 [] [] [] [].

(** The transcript after folding [sps] into a fresh accumulator. *)
Definition transcript_of (E : env) (conns : gset conn) (sps : list span)
  : str :=
  full_transcript (fold_all E (fresh conns) sps).

(** A span whose text is the string [t]. *)
Definition span_of (t : string) : span := Span PNone PNone (PStr (lit t)).

End Accumulator.

(** ** The accumulator as the specification words it *)

Module Spec.

(** "let t = strip(span.text).  If t is empty, no-op.  Else: if the
    canonical transcript is empty, set it to t; otherwise set it to
    canonical + " " + t." *)
Definition fold (canonical : str) (span_text : str) : str :=
  let t := strip span_text in
  match t with
  | [] => canonical
  | _ :: _ =>
      match canonical with
      | [] => t
      | _ :: _ => canonical ++ lit " " ++ t
      end
  end.

End Spec.

(** ** Session handler *)

Module Session.

(** What [json.loads(message)] does on a received message. *)
Inductive incoming :=
| Undecodable                (* raises JSONDecodeError *)
| LoadsRaises (e : exn)      (* raises something else *)
| Decoded (data : pyval).

(** What [await websocket.send(...)] does. *)
Inductive send_result :=
| SendReturns
| SendRaisesClosed
| SendRaises (e : exn).

(** How one step of the handler leaves the session. *)
Inductive verdict :=
| Continue
| Closed               (* ConnectionClosed *)
| Crashed (e : exn).   (* any other exception *)

Definition welcome : pyval :=
  PDict [ (lit "type", PStr (lit "connected"));
          (lit "message", PStr (lit "Connected to transcription server")) ].

Definition pong : pyval := PDict [ (lit "type", PStr (lit "pong")) ].

Definition send (websocket : conn) (m : pyval) (r : send_result)
    (s : server) : server * verdict :=
  (log_sent websocket m s,
   match r with
   | SendReturns => Continue
   | SendRaisesClosed => Closed
   | SendRaises e => Crashed e
   end).

(** The body of the [async for] loop on one message; [r] is what the
    reply's send does if a reply is sent. *)
Definition handle_message (websocket : conn) (m : incoming)
    (r : send_result) (s : server) : server * verdict :=
  match m with
  | Undecodable => (s, Continue)
  | LoadsRaises e => (s, Crashed e)
  | Decoded (PDict d) =>
      if eq_str (dict_get d (lit "type")) (lit "ping")
      then send websocket pong r s
      else (s, Continue)
  | Decoded _ => (s, Crashed "AttributeError"%string)
  end.

(** A received message is accepted: handling it sends nothing, changes
    nothing and leaves the session open for the next message. *)
Definition accepted (m : incoming) : Prop :=
  ∀ websocket r s, handle_message websocket m r s = (s, Continue).

(** The [async for] loop over the received messages; [ending] is how the
    iteration ends when the peer goes away. *)
Fixpoint message_loop (websocket : conn)
    (messages : list (incoming * send_result)) (ending : verdict)
    (s : server) : server * verdict :=
  match messages with
  | [] => (s, ending)
  | (m, r) :: rest =>
      match handle_message websocket m r s with
      | (s, Continue) => message_loop websocket rest ending s
      | stop => stop
      end
  end.

Definition handle_client (websocket : conn) (greeting : send_result)
    (messages : list (incoming * send_result)) (ending : verdict)
    (s : server) : server :=
  let s := Hub.register websocket s in
  let '(s, v) :=
    match send websocket welcome greeting s with
    | (s, Continue) => message_loop websocket messages ending s
    | stop => stop
    end in
  let s := match v with
           | Crashed e => print (LogHandlerError e) s
           | _ => s
           end in
  Hub.unregister websocket s.

End Session.

(** ** IngestQueue *)

(** [queue.Queue(maxsize)]: the items oldest first, and the count of
  tasks that [join] waits for. *)
Module Queue.

Record t (A : Type) := Q {
  maxsize : Z;
  items : list A;
  unfinished_tasks : nat
}.
Arguments Q {A} maxsize items unfinished_tasks.
Arguments maxsize {A} _.
Arguments items {A} _.
Arguments unfinished_tasks {A} _.

Section Ops.
Context {A : Type}.

Definition new (maxsize : Z) : t A := Q maxsize [] 0%nat.

Definition qsize (q : t A) : nat := length (items q).

Definition empty (q : t A) : bool :=
  match items q with [] => true | _ :: _ => false end.

(** [0 < maxsize <= qsize]; a [maxsize] of zero or less means no
    bound. *)
Definition full (q : t A) : bool :=
  ((0 <? maxsize q) && (maxsize q <=? Z.of_nat (qsize q)))%Z.

(** [put_nowait]: [None] stands for raising [queue.Full]. *)
Definition put_nowait (item : A) (q : t A) : option (t A) :=
  if full q then None
  else Some (Q (maxsize q) (items q ++ [item]) (S (unfinished_tasks q))).

(** [get(timeout=...)] with no producer left to wait for: [None]
    stands for raising [queue.Empty] when the timeout expires. *)
Definition get (q : t A) : option (A * t A) :=
  match items q with
  | [] => None
  | x :: r => Some (x, Q (maxsize q) r (unfinished_tasks q))
  end.

(** [task_done]: [None] stands for raising [ValueError] when called
    more often than there were items. *)
Definition task_done (q : t A) : option (t A) :=
  match unfinished_tasks q with
  | O => None
  | S n => Some (Q (maxsize q) (items q) n)
  end.

End Ops.

End Queue.

(** ** Capture callback, worker and shutdown *)

Module Pipeline.

(** The lines the pipeline prints, by their format. *)
Inductive wline :=
| AudioStatus (status : string)
| Stopping
| ErrCallback (e : exn)
| ErrProcessing (e : exn)
| ErrWorker (e : exn)
| ErrFinalCallback (e : exn)
| ErrFinishing (e : exn)
| SpanLine (start_time end_time text : pyval)
| FinalLine (final_text : pyval)
| Finishing                   (* the rule of dashes and the line under it *)
| Stopped
| ClosingRule.                (* print("=" * 60) *)

(** What is written to the output file. *)
Inductive frecord :=
| FJson (obj : pyval)
| FSpanLine (start_time end_time text : pyval)
| FFinalLine (final_text : pyval).

(** The least magnitude of an [int] that [float(...)] cannot take: the
    conversion rounds to 53 bits, half to even, and the largest float is
    [2^1024 - 2^971]. *)
Definition float_overflow : Z := 2 ^ 1024 - 2 ^ 970.

(** Formatting with [:.2f] works on numbers only, and converts an [int]
    (a [bool] is one) to a float first. *)
Definition format_2f (v : pyval) : outcome unit :=
  match v with
  | PInt z =>
      if (Z.abs z <? float_overflow)%Z then Return tt
      else Raise "OverflowError"%string
  | PFloat _ | PBool _ => Return tt
  | PStr _ => Raise "ValueError"%string
  | PNone | PList _ | PDict _ => Raise "TypeError"%string
  end.

Definition format_span (start_time end_time : pyval) : outcome unit :=
  match format_2f start_time with
  | Raise e => Raise e
  | Return _ => format_2f end_time
  end.

Definition json_record (start_time end_time text : pyval)
    (now : pyfloat) : pyval :=
  PDict [ (lit "start_time", start_time);
          (lit "end_time", end_time);
          (lit "text", text);
          (lit "timestamp", PFloat now) ].

Definition json_final_record (start_time end_time text : pyval)
    (now : pyfloat) : pyval :=
  PDict [ (lit "start_time", start_time);
          (lit "end_time", end_time);
          (lit "text", text);
          (lit "timestamp", PFloat now);
          (lit "final", PBool true) ].

Section Worker.
Context {frame engine cbstate : Type}.

(** Everything the pipeline does that is visible from outside, in the
    order it happens. *)
Inductive event :=
| EvInsert (chunk : frame)      (* online.insert_audio_chunk(chunk) *)
| EvProcessIter                 (* online.process_iter() *)
| EvFinish                      (* online.finish() *)
| EvCallback (start_time end_time text : pyval)
| EvStdout (l : wline)
| EvStderr (l : wline)
| EvFile (r : frecord).

(** The online processor, an external collaborator: each call answers
    with the processor's next state and what the call did. *)
Record asr := Asr {
  insert_audio_chunk : engine → frame → engine * outcome unit;
  process_iter : engine → engine * outcome span;
  finish : engine → engine * outcome span
}.

Definition callback : Type :=
  cbstate → pyval → pyval → pyval → cbstate * outcome unit.

(** The arguments of [realtime_transcribe_sounddevice] the worker
    reads, and [time.time()]. *)
Record config := Config {
  online : asr;
  transcript_callback : option callback;
  output_file : bool;       (* an output file was given *)
  json_output : bool;
  clock : nat → pyfloat
}.

Record state := State {
  eng : engine;
  cb : cbstate;
  audio_queue : Queue.t frame;
  running : bool;
  trace : list event
}.

Definition set_eng (e : engine) (w : state) : state :=
  State e (cb w) (audio_queue w) (running w) (trace w).
Definition set_cb (c : cbstate) (w : state) : state :=
  State (eng w) c (audio_queue w) (running w) (trace w).
Definition set_queue (q : Queue.t frame) (w : state) : state :=
  State (eng w) (cb w) q (running w) (trace w).
Definition set_running (b : bool) (w : state) : state :=
  State (eng w) (cb w) (audio_queue w) b (trace w).
Definition log (ev : event) (w : state) : state :=
  State (eng w) (cb w) (audio_queue w) (running w) (trace w ++ [ev]).

(** The queue of the pipeline, [queue.Queue(maxsize=5)]. *)
Definition queue_capacity : Z := 5.

(** The pipeline at its start, with a queue of capacity [n]. *)
Definition start_with (n : Z) (e : engine) (c : cbstate) : state :=
  State e c (Queue.new n) true [].

Definition start (e : engine) (c : cbstate) : state :=
  start_with queue_capacity e c.

Definition signal_handler (w : state) : state :=
  set_running false (log (EvStdout Stopping) w).

(** The capture callback; [chunk] is the first channel of [indata]. *)
Definition audio_callback (status : option string) (chunk : frame)
    (w : state) : state * outcome unit :=
  let w := match status with
           | Some st => log (EvStderr (AudioStatus st)) w
           | None => w
           end in
  if negb (running w) then (w, Raise "CallbackStop"%string)
  else
    match Queue.put_nowait chunk (audio_queue w) with
    | Some q => (set_queue q w, Return tt)
    | None => (w, Return tt)          (* queue.Full: pass *)
    end.

Section Configured.
Variable C : config.

(** [if transcript_callback: try: ... except Exception: print]. *)
Definition call_callback (on_error : exn → wline)
    (start_time end_time text : pyval) (w : state) : state :=
  match transcript_callback C with
  | None => w
  | Some f =>
      let w := log (EvCallback start_time end_time text) w in
      let '(c, r) := f (cb w) start_time end_time text in
      let w := set_cb c w in
      match r with
      | Return _ => w
      | Raise e => log (EvStderr (on_error e)) w
      end
  end.

Definition write_span (r : span) (w : state) : state * outcome unit :=
  if output_file C then
    if json_output C then
      (log (EvFile (FJson (json_record (start_time r) (end_time r)
                             (text r) (clock C (length (trace w)))))) w,
       Return tt)
    else
      match format_span (start_time r) (end_time r) with
      | Raise e => (w, Raise e)
      | Return _ =>
          (log (EvFile (FSpanLine (start_time r) (end_time r) (text r)))
             w, Return tt)
      end
  else (w, Return tt).

Definition print_span (r : span) (w : state) : state * outcome unit :=
  if negb (output_file C) || negb (json_output C) then
    match format_span (start_time r) (end_time r) with
    | Raise e => (w, Raise e)
    | Return _ =>
        (log (EvStdout (SpanLine (start_time r) (end_time r) (text r)))
           w, Return tt)
    end
  else (w, Return tt).

(** What follows [result = online.process_iter()] inside the inner
    [try]. *)
Definition handle_result (result : span) (w : state)
  : state * outcome unit :=
  if py_truthy (text result) then
    let w := call_callback ErrCallback (start_time result)
               (end_time result) (text result) w in
    match write_span result w with
    | (w, Raise e) => (w, Raise e)
    | (w, Return _) => print_span result w
    end
  else (w, Return tt).

(** The inner [try] of the worker on one chunk. *)
Definition try_chunk (chunk : frame) (w : state)
  : state * outcome unit :=
  let '(e, r) := insert_audio_chunk (online C) (eng w) chunk in
  let w := log (EvInsert chunk) (set_eng e w) in
  match r with
  | Raise x => (w, Raise x)
  | Return _ =>
      let '(e, r) := process_iter (online C) (eng w) in
      let w := log EvProcessIter (set_eng e w) in
      match r with
      | Raise x => (w, Raise x)
      | Return result => handle_result result w
      end
  end.

(** ... and its [except Exception as e: print(...)]. *)
Definition process_chunk (chunk : frame) (w : state) : state :=
  match try_chunk chunk w with
  | (w, Return _) => w
  | (w, Raise e) => log (EvStderr (ErrProcessing e)) w
  end.

(** One turn of the worker's [while] loop. *)
Definition worker_iteration (w : state) : state :=
  match Queue.get (audio_queue w) with
  | None => w                       (* queue.Empty: continue *)
  | Some (chunk, q) =>
      let w := process_chunk chunk (set_queue q w) in
      match Queue.task_done (audio_queue w) with
      | Some q => set_queue q w
      | None =>
          if running w then log (EvStderr (ErrWorker "ValueError")) w
          else w
      end
  end.

(** [running or not audio_queue.empty()] *)
Definition worker_alive (w : state) : bool :=
  running w || negb (Queue.empty (audio_queue w)).

(** The worker thread's next turn, if its loop has not ended. *)
Definition worker_step (w : state) : state :=
  if worker_alive w then worker_iteration w else w.

(** [audio_queue.join()]: the caller waits, the worker takes its
    turns, until no task is unfinished; [None] when the wait is
    not over after [fuel] turns. *)
Fixpoint join (fuel : nat) (w : state) : option state :=
  match Queue.unfinished_tasks (audio_queue w) with
  | O => Some w
  | S _ =>
      match fuel with
      | O => None
      | S fuel => join fuel (worker_step w)
      end
  end.

(** What follows [final_result = online.finish()] inside the
    [try]. *)
Definition handle_final (final_result : span) (w : state) : state :=
  if py_truthy (text final_result) then
    let final_text := text final_result in
    let w := call_callback ErrFinalCallback
               (or_zero (start_time final_result))
               (or_zero (end_time final_result)) final_text w in
    let w :=
      if output_file C then
        if json_output C then
          log (EvFile (FJson (json_final_record
                                (or_zero (start_time final_result))
                                (or_zero (end_time final_result))
                                final_text
                                (clock C (length (trace w)))))) w
        else log (EvFile (FFinalLine final_text)) w
      else w in
    if negb (output_file C) || negb (json_output C)
    then log (EvStdout (FinalLine final_text)) w
    else w
  else w.

(** The [finally] block after the queue has been joined. *)
Definition finish_phase (w : state) : state :=
  let w := log (EvStdout Finishing) w in
  let '(e, r) := finish (online C) (eng w) in
  let w := log EvFinish (set_eng e w) in
  let w := match r with
           | Raise x => log (EvStdout (ErrFinishing x)) w
           | Return final_result => handle_final final_result w
           end in
  log (EvStdout ClosingRule) (log (EvStdout Stopped) w).

(** The [finally] block: wait for the queue, then finish. *)
Definition finalize (fuel : nat) (w : state) : option state :=
  finish_phase <$> join fuel w.

(** A termination request followed by the [finally] block. *)
Definition shutdown (fuel : nat) (w : state) : option state :=
  finalize fuel (signal_handler w).

(** Any interleaving of the capture callback and the worker. *)
Inductive action :=
| Capture (status : option string) (chunk : frame)
| Work.

Definition act (w : state) (a : action) : state :=
  match a with
  | Capture status chunk => (audio_callback status chunk w).1
  | Work => worker_step w
  end.

Definition run (w : state) (l : list action) : state := foldl act w l.

(** The chunks handed to the capture callback, in order. *)
Definition captured (l : list action) : list frame :=
  omap (λ a, match a with Capture _ chunk => Some chunk | Work => None end)
    l.

(** The engine raises on [chunk]: in [insert_audio_chunk], or in
    the [process_iter] that follows it. *)
Definition engine_raises (chunk : frame) (w : state) (x : exn) : Prop :=
  (insert_audio_chunk (online C) (eng w) chunk).2 = Raise x
  ∨ ∃ e, insert_audio_chunk (online C) (eng w) chunk = (e, Return tt)
         ∧ (process_iter (online C) e).2 = Raise x.

End Configured.

(** The chunks given to the engine along a trace, in order. *)
Definition inserted (tr : list event) : list frame :=
  omap (λ ev, match ev with EvInsert chunk => Some chunk | _ => None end)
    tr.

(** The number of calls of [online.finish()] along a trace. *)
Definition finish_calls (tr : list event) : nat :=
  length (List.filter
            (λ ev, match ev with EvFinish => true | _ => false end) tr).

(** The calls of the transcript callback along a trace. *)
Definition callback_calls (tr : list event) : list span :=
  omap (λ ev, match ev with
              | EvCallback st et tx => Some (Span st et tx)
              | _ => None
              end) tr.

(** A stretch of trace with no engine input and no finish in it. *)
Definition quiet (tr : list event) : Prop :=
  inserted tr = [] ∧ finish_calls tr = 0%nat.

(** Between two turns of the worker, the unfinished tasks are the
    queued items. *)
Definition balanced (w : state) : Prop :=
  Queue.unfinished_tasks (audio_queue w)
  = length (Queue.items (audio_queue w)).

(** [w'] comes from [w] by steps that leave the queue and the flag
    alone and add a quiet stretch of trace. *)
Definition calm (w w' : state) : Prop :=
  audio_queue w' = audio_queue w ∧ running w' = running w
  ∧ ∃ tr, trace w' = trace w ++ tr ∧ quiet tr.

End Worker.

Arguments event : clear implicits.
Arguments asr : clear implicits.
Arguments callback : clear implicits.
Arguments config : clear implicits.
Arguments state : clear implicits.
Arguments action : clear implicits.

Arguments inserted {frame} tr.
Arguments finish_calls {frame} tr.
Arguments callback_calls {frame} tr.
Arguments quiet {frame} tr.
Arguments calm {frame engine cbstate} w w'.
Arguments balanced {frame engine cbstate} w.

(** The pipeline as the server starts it: the callback is the
    accumulator's, the callback state is the server's globals. *)
Definition server_callback (E : env) : callback server :=
  λ s start_time end_time text,
    Accumulator.transcript_callback E start_time end_time text s.

(** The field [k] of a message. *)
Definition message_field (m : pyval) (k : string) : option pyval :=
  match m with
  | PDict d => dict_get d (lit k)
  | _ => None
  end.


(** A scripted engine on numbered chunks: it raises on chunk 0, reports
    the word "word" after any other chunk, and flushes [final_text] when
    finished.  Its state is the list of chunks taken in so far. *)
Definition scripted (final_text : str) : asr nat (list nat) :=
  Asr (λ e chunk, match chunk with
                  | O => (e, Raise "bad chunk"%string)
                  | S _ => (chunk :: e, Return tt)
                  end)
      (λ e, (e, Return (Span (PFloat (PyFloat 0 0)) (PFloat (PyFloat 1 0))
                          (PStr (lit "word")))))
      (λ e, ([], Return (Span PNone PNone (PStr final_text)))).

Definition quiet_env : env :=
  Env NoCurrentLoop (λ _, false) (λ _ _ _, SendDone) (λ _, PyFloat 0 0).

(** The server's pipeline on the scripted engine, without output file. *)
Definition scripted_config (final_text : str)
  : config nat (list nat) server :=
  Config (scripted final_text) (Some (server_callback quiet_env)) false
    false (λ _, PyFloat 0 0).

End Pipeline.

(** * Further parts of the code *)

(** ** Joining texts *)

Module PyJoin.

(** [sep.join(l)] for a list of strings. *)
Fixpoint join (sep : str) (l : list str) : str :=
  match l with
  | [] => []
  | x :: r =>
      match r with
      | [] => x
      | _ :: _ => x ++ sep ++ join sep r
      end
  end.

End PyJoin.

(** ** What the accumulator keeps of a sequence of spans *)

Module Transcript.

(** The text a span adds to the transcript: its stripped text, when the
    text is a string that is not blank. *)
Definition kept_text (sp : span) : option str :=
  match Accumulator.new_text_of (text sp) with
  | Return (c :: r) => Some (c :: r)
  | _ => None
  end.

Definition kept_texts (sps : list span) : list str := omap kept_text sps.

(** The transcript after each of the first spans that add something. *)
Definition successive (kept : list str) : list str :=
  (λ k, PyJoin.join (lit " ") (take (S k) kept)) <$> seq 0 (length kept).

Definition is_initialized (l : log_line) : bool :=
  match l with LogInitialized _ => true | _ => false end.

Definition is_update (l : log_line) : bool :=
  match l with LogUpdate _ _ => true | _ => false end.

End Transcript.

(** ** The broadcast of single segments *)

Module Legacy.

Definition segment_message (start_time end_time text : pyval)
    (now : pyfloat) : pyval :=
  PDict [ (lit "type", PStr (lit "transcript"));
          (lit "start_time", start_time);
          (lit "end_time", end_time);
          (lit "text", text);
          (lit "timestamp", PFloat now) ].


End Legacy.

(** ** Counting in the session handler *)

Module SessionLog.

(** The received message is an object whose type is ping. *)
Definition is_ping (m : Session.incoming) : bool :=
  match m with
  | Session.Decoded (PDict d) => eq_str (dict_get d (lit "type")) (lit "ping")
  | _ => false
  end.

Definition pings (messages : list (Session.incoming * Session.send_result))
  : nat :=
  length (List.filter (λ m, is_ping m.1) messages).


End SessionLog.

(** ** The test client *)

Module Client.

(** What the client prints. *)
Inductive line :=
| ServerSays (message : pyval)
| TranscriptLine (start_time end_time text : pyval).

(** [d.get(k, default)] *)
Definition get_or (d : list (str * pyval)) (k : string) (default : pyval)
  : pyval :=
  match dict_get d (lit k) with
  | Some v => v
  | None => default
  end.

(** The keepalive the client sends when nothing arrives in time. *)
Definition ping : pyval := PDict [ (lit "type", PStr (lit "ping")) ].

(** The first message after connecting. *)
Definition on_first (data : pyval) : outcome (list line) :=
  match data with
  | PDict d =>
      if eq_str (dict_get d (lit "type")) (lit "connected")
      then Return [ServerSays (get_or d "message" (PStr []))]
      else Return []
  | _ => Raise "AttributeError"%string
  end.

(** The body of the listening loop on one received message. *)
Definition on_message (data : pyval) : outcome (list line) :=
  match data with
  | PDict d =>
      if eq_str (dict_get d (lit "type")) (lit "transcript") then
        let start_time := get_or d "start_time" (PInt 0) in
        let end_time := get_or d "end_time" (PInt 0) in
        let text := get_or d "text" (PStr []) in
        match Pipeline.format_span start_time end_time with
        | Raise e => Raise e
        | Return _ => Return [TranscriptLine start_time end_time text]
        end
      else Return []
  | _ => Raise "AttributeError"%string
  end.

End Client.

(** ** The collector of the integration examples *)

Module Collector.

(** The collected records, oldest first; a record holds the three
    arguments of the callback. *)
Definition handle_transcript (start_time end_time text : pyval)
    (transcripts : list span) : list span :=
  transcripts ++ [Span start_time end_time text].

Definition collect (sps : list span) : list span :=
  foldl (λ c sp, handle_transcript (start_time sp) (end_time sp) (text sp) c)
    [] sps.

(** The texts of the records, when all of them are strings. *)
Fixpoint texts (transcripts : list span) : option (list str) :=
  match transcripts with
  | [] => Some []
  | sp :: r =>
      match text sp, texts r with
      | PStr t, Some ts => Some (t :: ts)
      | _, _ => None
      end
  end.

(** [' '.join(t['text'] for t in self.transcripts)]: joining needs
    strings. *)
Definition get_full_text (transcripts : list span) : outcome str :=
  match texts transcripts with
  | Some ts => Return (PyJoin.join (lit " ") ts)
  | None => Raise "TypeError"%string
  end.

End Collector.

(** ** The capture callback of the other audio library *)

Module PyAudio.

Inductive flag := paContinue | paComplete.

(** One 16-bit sample as a float: [x / 32768.0]. *)
Definition to_float32 (x : Z) : pyfloat := PyFloat x (-15).

(** [audio_int16.astype(np.float32) / 32768.0] *)
Definition to_float32s (audio_int16 : list Z) : list pyfloat :=
  to_float32 <$> audio_int16.

(** The callback on the decoded 16-bit samples of [in_data]. *)
Definition audio_callback {engine cbstate : Type} (audio_int16 : list Z)
    (w : Pipeline.state (list pyfloat) engine cbstate)
  : Pipeline.state (list pyfloat) engine cbstate * flag :=
  if negb (Pipeline.running w) then (w, paComplete)
  else
    let audio_float32 := to_float32s audio_int16 in
    match Queue.put_nowait audio_float32 (Pipeline.audio_queue w) with
    | Some q => (Pipeline.set_queue q w, paContinue)
    | None => (w, paContinue)
    end.

End PyAudio.

(** ** Proving over whole runs of the pipeline *)

Module Runs.

Section Runs.
Context {frame engine cbstate : Type}.

(** The events that carry no span: engine calls, error lines and the
    lines of the shutdown. *)
Definition neutral (ev : Pipeline.event frame) : Prop :=
  match ev with
  | Pipeline.EvInsert _ | Pipeline.EvProcessIter | Pipeline.EvFinish => True
  | Pipeline.EvStderr _ => True
  | Pipeline.EvStdout l =>
      match l with
      | Pipeline.SpanLine _ _ _ | Pipeline.FinalLine _ => False
      | _ => True
      end
  | Pipeline.EvCallback _ _ _ | Pipeline.EvFile _ => False
  end.

(** The spans printed on standard output along a trace. *)
Definition printed (tr : list (Pipeline.event frame)) : list pyval :=
  omap (λ ev, match ev with
              | Pipeline.EvStdout (Pipeline.SpanLine _ _ tx) => Some tx
              | Pipeline.EvStdout (Pipeline.FinalLine tx) => Some tx
              | _ => None
              end) tr.

(** The span of a JSON record. *)
Definition record_span (obj : pyval) : option span :=
  match obj with
  | PDict d =>
      match dict_get d (lit "start_time"), dict_get d (lit "end_time"),
            dict_get d (lit "text") with
      | Some a, Some b, Some c => Some (Span a b c)
      | _, _, _ => None
      end
  | _ => None
  end.

(** The spans of the JSON records written along a trace. *)
Definition file_spans (tr : list (Pipeline.event frame)) : list span :=
  omap (λ ev, match ev with
              | Pipeline.EvFile (Pipeline.FJson obj) => record_span obj
              | _ => None
              end) tr.

(** The JSON records written along a trace. *)
Definition file_records (tr : list (Pipeline.event frame)) : list pyval :=
  omap (λ ev, match ev with
              | Pipeline.EvFile (Pipeline.FJson obj) => Some obj
              | _ => None
              end) tr.

(** The engine calls of a worker that keeps up: a turn after each
    capture. *)
Definition keeping_up (chunks : list frame) : list (Pipeline.action frame) :=
  chunks ≫= λ chunk, [Pipeline.Capture None chunk; Pipeline.Work].

End Runs.

(** An engine that answers every chunk with the same result and finishes
    with the same final result; it never raises. *)
Definition constant_engine (result final : span) : Pipeline.asr nat unit :=
  Pipeline.Asr (λ e _, (e, Return tt)) (λ e, (e, Return result))
    (λ e, (e, Return final)).

(** The server's pipeline on such an engine, writing JSON lines. *)
Definition json_config (result final : span)
  : Pipeline.config nat unit server :=
  Pipeline.Config (constant_engine result final)
    (Some (Pipeline.server_callback Pipeline.quiet_env)) true true
    (λ _, PyFloat 0 0).

(** The same without output file. *)
Definition plain_config (result final : span)
  : Pipeline.config nat unit server :=
  Pipeline.Config (constant_engine result final)
    (Some (Pipeline.server_callback Pipeline.quiet_env)) false false
    (λ _, PyFloat 0 0).

End Runs.

(** ** Transcribing an audio file *)

Module FileMode.

(** The lines printed while a file is transcribed. *)
Inductive fline :=
| ModelError (e : exn)
| AudioLoaded (samples : nat)
| AudioError (e : exn)
| Line (start_time end_time text : pyval)
| Finishing
| Final (text : pyval)
| Complete.

(** [range(0, stop, step)] for a length [stop]: a zero step is refused, a
    negative one gives nothing. *)
Definition py_range0 (stop : nat) (step : Z) : outcome (list Z) :=
  if (step =? 0)%Z then Raise "ValueError"%string
  else if (0 <? step)%Z then
    Return ((λ k, Z.of_nat k * step)%Z
              <$> seq 0 (Z.to_nat ((Z.of_nat stop + step - 1) / step)))
  else Return [].

(** [l[i:j]] for indices that are not negative. *)
Definition slice {A : Type} (l : list A) (i j : Z) : list A :=
  drop (Z.to_nat i) (take (Z.to_nat j) l).

(** The chunks the loop [for i in range(0, len(audio), chunk_size)]
    takes, [audio[i:i+chunk_size]] each. *)
Definition chunks {A : Type} (audio : list A) (chunk_size : Z)
  : outcome (list (list A)) :=
  match py_range0 (length audio) chunk_size with
  | Raise e => Raise e
  | Return starts =>
      Return ((λ i, slice audio i (i + chunk_size)%Z) <$> starts)
  end.

(** [int(sample_rate * chunk_duration)] for 16000 and 0.3. *)
Definition file_chunk_size : Z := 4800.

Section FileMode.
Context {sample engine : Type}.

Inductive event :=
| EvInsert (chunk : list sample)
| EvProcessIter
| EvFinish
| EvPrint (l : fline).

Record fstate := FState {
  feng : engine;
  ftrace : list event
}.

Definition flog (ev : event) (st : fstate) : fstate :=
  FState (feng st) (ftrace st ++ [ev]).

Definition set_feng (e : engine) (st : fstate) : fstate :=
  FState e (ftrace st).

Variable A : Pipeline.asr (list sample) engine.

(** The body of the loop on one chunk; nothing is caught. *)
Definition step_chunk (chunk : list sample) (st : fstate)
  : fstate * outcome unit :=
  let '(e, r) := Pipeline.insert_audio_chunk A (feng st) chunk in
  let st := flog (EvInsert chunk) (set_feng e st) in
  match r with
  | Raise x => (st, Raise x)
  | Return _ =>
      let '(e, r) := Pipeline.process_iter A (feng st) in
      let st := flog EvProcessIter (set_feng e st) in
      match r with
      | Raise x => (st, Raise x)
      | Return result =>
          if py_truthy (text result) then
            match Pipeline.format_span (start_time result)
                    (end_time result) with
            | Raise x => (st, Raise x)
            | Return _ =>
                (flog (EvPrint (Line (start_time result) (end_time result)
                                  (text result))) st, Return tt)
            end
          else (st, Return tt)
      end
  end.

Fixpoint loop (cs : list (list sample)) (st : fstate)
  : fstate * outcome unit :=
  match cs with
  | [] => (st, Return tt)
  | chunk :: rest =>
      match step_chunk chunk st with
      | (st, Return _) => loop rest st
      | stop => stop
      end
  end.

(** What follows the loop. *)
Definition finish_up (st : fstate) : fstate * outcome unit :=
  let st := flog (EvPrint Finishing) st in
  let '(e, r) := Pipeline.finish A (feng st) in
  let st := flog EvFinish (set_feng e st) in
  match r with
  | Raise x => (st, Raise x)
  | Return final_result =>
      let st := if py_truthy (text final_result)
                then flog (EvPrint (Final (text final_result))) st
                else st in
      (flog (EvPrint Complete) st, Return tt)
  end.

(** The transcription of loaded audio in chunks of [chunk_size]. *)
Definition transcribe (audio : list sample) (chunk_size : Z) (st : fstate)
  : fstate * outcome unit :=
  match chunks audio chunk_size with
  | Raise x => (st, Raise x)
  | Return cs =>
      match loop cs st with
      | (st, Return _) => finish_up st
      | stop => stop
      end
  end.

(** [process_audio_file]: [model] is what loading the model and creating
    the processor gives, [loaded] what [load_audio] gives; a failure of
    either is printed and the function returns. *)
Definition process_audio_file (model : outcome engine)
    (loaded : outcome (list sample)) : list event * outcome unit :=
  match model with
  | Raise x => ([EvPrint (ModelError x)], Return tt)
  | Return e =>
      match loaded with
      | Raise x => ([EvPrint (AudioError x)], Return tt)
      | Return audio =>
          let st := FState e [EvPrint (AudioLoaded (length audio))] in
          let '(st, r) := transcribe audio file_chunk_size st in
          (ftrace st, r)
      end
  end.

(** The chunks given to the engine along a trace, in order. *)
Definition inserted (tr : list event) : list (list sample) :=
  omap (λ ev, match ev with EvInsert chunk => Some chunk | _ => None end) tr.

Definition finish_calls (tr : list event) : nat :=
  length (List.filter
            (λ ev, match ev with EvFinish => true | _ => false end) tr).

End FileMode.

Arguments event : clear implicits.
Arguments fstate : clear implicits.
Arguments inserted {sample} tr.
Arguments finish_calls {sample} tr.

End FileMode.

(** * Properties *)

(** ** Stripping *)

Section Strip.

Lemma lstrip_split (s : str) : ∃ b, s = b ++ lstrip s ∧ blank b.
Proof.
  induction s as [|c r IH]; simpl.
  - exists []. split; [done | constructor].
  - destruct (isspace c) eqn:Hc.
    + destruct IH as (b & Hb & Hbl). exists (c :: b). split.
      * simpl. by f_equal.
      * by constructor.
    + exists []. split; [done | constructor].
Qed.

Lemma lstrip_clean_head (s : str) : clean_head (lstrip s).
Proof.
  induction s as [|c r IH]; simpl; [done|].
  destruct (isspace c) eqn:Hc; [done | exact Hc].
Qed.

Lemma lstrip_fix (s : str) : clean_head s → lstrip s = s.
Proof. destruct s as [|c r]; simpl; [done|]. by intros ->. Qed.

Lemma lstrip_blank (s : str) : blank s → lstrip s = [].
Proof. induction 1 as [|c r Hc _ IH]; simpl; [done|]. by rewrite Hc. Qed.

Lemma lstrip_nil_blank (s : str) : lstrip s = [] → blank s.
Proof.
  intros H. destruct (lstrip_split s) as (b & Hb & Hbl).
  rewrite H, app_nil_r in Hb. by subst.
Qed.

Lemma blank_reverse (s : str) : blank s → blank (reverse s).
Proof. unfold blank. rewrite !Forall_forall. intros H c Hc.
  apply H. by apply elem_of_reverse. Qed.

Lemma rstrip_split (s : str) : ∃ b, s = rstrip s ++ b ∧ blank b.
Proof.
  unfold rstrip. destruct (lstrip_split (reverse s)) as (b & Hb & Hbl).
  exists (reverse b). split; [|by apply blank_reverse].
  rewrite <- reverse_app, <- Hb. by rewrite reverse_involutive.
Qed.

Lemma rstrip_clean_last (s : str) : clean_last (rstrip s).
Proof.
  unfold clean_last, rstrip. rewrite reverse_involutive.
  apply lstrip_clean_head.
Qed.

Lemma rstrip_fix (s : str) : clean_last s → rstrip s = s.
Proof.
  unfold clean_last, rstrip. intros H.
  rewrite lstrip_fix by done. apply reverse_involutive.
Qed.

Lemma rstrip_clean_head (s : str) : clean_head s → clean_head (rstrip s).
Proof.
  intros H. destruct (rstrip_split s) as (b & Hb & _).
  destruct (rstrip s) as [|c r]; [done|].
  rewrite Hb in H. exact H.
Qed.

Lemma strip_clean (s : str) : clean_head (strip s) ∧ clean_last (strip s).
Proof.
  unfold strip. split.
  - apply rstrip_clean_head, lstrip_clean_head.
  - apply rstrip_clean_last.
Qed.

Lemma strip_fix (s : str) : clean_head s → clean_last s → strip s = s.
Proof.
  intros Hh Hl. unfold strip. rewrite lstrip_fix by done.
  by apply rstrip_fix.
Qed.

Lemma trimmed_clean (s : str) : trimmed s ↔ clean_head s ∧ clean_last s.
Proof.
  split.
  - intros H. rewrite <- H. apply strip_clean.
  - intros [Hh Hl]. by apply strip_fix.
Qed.

Lemma strip_trimmed (s : str) : trimmed (strip s).
Proof. apply trimmed_clean, strip_clean. Qed.

Lemma strip_blank (s : str) : blank s → strip s = [].
Proof. intros H. unfold strip. by rewrite lstrip_blank. Qed.


Lemma clean_head_app (a b : str) : a ≠ [] → clean_head a → clean_head (a ++ b).
Proof. destruct a; [done|]. by simpl. Qed.

Lemma clean_last_app (a b : str) : b ≠ [] → clean_last b → clean_last (a ++ b).
Proof.
  unfold clean_last. intros Hb H. rewrite reverse_app.
  apply clean_head_app; [|done].
  intros Hr. apply Hb. by rewrite <- (reverse_involutive b), Hr.
Qed.

(** Joining two trimmed non-empty strings with one space gives a trimmed
    string: the [strip] applied to the concatenation changes nothing. *)
Lemma strip_join (a b : str) :
  a ≠ [] → b ≠ [] → trimmed a → trimmed b →
  strip (a ++ lit " " ++ b) = a ++ lit " " ++ b.
Proof.
  intros Ha Hb [Hah _]%trimmed_clean [_ Hbl]%trimmed_clean.
  apply strip_fix.
  - by apply clean_head_app.
  - rewrite app_assoc. by apply clean_last_app.
Qed.

Lemma truthy_true (s : str) : truthy s = true ↔ s ≠ [].
Proof. destruct s; simpl; split; congruence. Qed.

Lemma truthy_false (s : str) : truthy s = false ↔ s = [].
Proof. destruct s; simpl; split; congruence. Qed.

End Strip.

(** ** TranscriptAccumulator *)

Section AccumulatorFacts.
Import Accumulator.

Lemma broadcast_full_transcript_globals E now t s :
  full_transcript (Hub.broadcast_full_transcript E now t s) = full_transcript s
  ∧ update_count (Hub.broadcast_full_transcript E now t s) = update_count s.
Proof.
  unfold Hub.broadcast_full_transcript.
  case_bool_decide; [done|].
  destruct (Hub.create_tasks _ _) as [d1 tasks].
  destruct (Hub.await_tasks _ _ _) as [d2 log]. done.
Qed.

Lemma callback_transcript E st et tx s :
  full_transcript (transcript_callback E st et tx s).1
  = next_transcript (full_transcript s) tx.
Proof.
  unfold transcript_callback, next_transcript.
  destruct (new_text_of tx) as [nt|e]; [|done].
  destruct (truthy nt); simpl; [|done].
  destruct (truthy (full_transcript s)); simpl;
    repeat match goal with
           | |- context [if ?b then _ else _] => destruct b
           end;
    destruct (loop E); simpl;
    rewrite ?(proj1 (broadcast_full_transcript_globals _ _ _ _)); done.
Qed.

Lemma fold_all_transcript E s sps :
  full_transcript (fold_all E s sps)
  = foldl (λ full sp, next_transcript full (text sp)) (full_transcript s) sps.
Proof.
  revert s. induction sps as [|sp sps IH]; intros s; [done|].
  simpl. rewrite IH. unfold fold. by rewrite callback_transcript.
Qed.

Lemma new_text_trimmed tx nt : new_text_of tx = Return nt → trimmed nt.
Proof.
  unfold new_text_of. destruct (py_truthy tx).
  - destruct tx; try discriminate. intros [= <-]. apply strip_trimmed.
  - intros [= <-]. reflexivity.
Qed.

Lemma next_transcript_trimmed full tx :
  trimmed full → trimmed (next_transcript full tx).
Proof.
  intros Hf. unfold next_transcript.
  destruct (new_text_of tx) as [nt|e] eqn:Hn; [|done].
  destruct (truthy nt); simpl; [|done].
  destruct (truthy full).
  - apply strip_trimmed.
  - by eapply new_text_trimmed.
Qed.

Lemma transcript_of_trimmed E conns sps : trimmed (transcript_of E conns sps).
Proof.
  unfold transcript_of. rewrite fold_all_transcript. simpl.
  assert (Hnil : trimmed []) by reflexivity. revert Hnil.
  generalize (@nil N) as full. induction sps as [|sp sps IH]; intros full Hf.
  - done.
  - simpl. apply IH. by apply next_transcript_trimmed.
Qed.

(** On a trimmed transcript the code's step is the specification's. *)
Lemma next_transcript_spec full t :
  trimmed full → next_transcript full (PStr t) = Spec.fold full t.
Proof.
  intros Hf. unfold next_transcript, Spec.fold, new_text_of.
  destruct t as [|c r]; [reflexivity|].
  change (py_truthy (PStr (c :: r))) with true. cbv iota.
  destruct (strip (c :: r)) as [|c' r'] eqn:Hs; [reflexivity|].
  change (truthy (c' :: r')) with true. cbv iota beta delta [negb].
  destruct full as [|f fr]; [reflexivity|].
  change (truthy (f :: fr)) with true. cbv iota.
  rewrite <- Hs. apply strip_join; try done.
  - by rewrite Hs.
  - apply strip_trimmed.
Qed.

Lemma next_transcript_prefix full tx :
  trimmed full → full `prefix_of` next_transcript full tx.
Proof.
  intros Hf. unfold next_transcript.
  destruct (new_text_of tx) as [nt|e] eqn:Hn; [|done].
  destruct (truthy nt) eqn:Hnt; cbn [negb]; [|done].
  destruct (truthy full) eqn:Hfull.
  - rewrite strip_join.
    + by apply prefix_app_r.
    + by apply truthy_true.
    + by apply truthy_true.
    + done.
    + by eapply new_text_trimmed.
  - apply truthy_false in Hfull. subst. apply prefix_nil.
Qed.

Lemma foldl_next_prefix full sps :
  trimmed full →
  full `prefix_of` foldl (λ full sp, next_transcript full (text sp)) full sps.
Proof.
  revert full. induction sps as [|sp sps IH]; intros full Hf; [done|].
  simpl. etrans; [by apply (next_transcript_prefix full (text sp))|].
  apply IH. by apply next_transcript_trimmed.
Qed.

Lemma new_text_blank t : blank t → new_text_of (PStr t) = Return [].
Proof.
  intros Hb. unfold new_text_of. simpl.
  destruct (truthy t); [|done]. by rewrite strip_blank.
Qed.

End AccumulatorFacts.

(** C1.  On every transcript the accumulator can hold (the one obtained by
    folding any history of spans into a fresh accumulator), folding a span
    whose text is the string [t] gives what the specification's fold gives:
    unchanged when the stripped text is empty, the stripped text when the
    transcript is empty, and otherwise the old transcript, one space, and
    the stripped text.  Folding "Hello", "world" and the empty text in this
    order into
    a fresh accumulator gives exactly "Hello world". *)
Theorem fold_refines_spec :
  (∀ E conns history st et t,
      let s := Accumulator.fold_all E (Accumulator.fresh conns) history in
      full_transcript (Accumulator.fold E s (Span st et (PStr t)))
      = Spec.fold (full_transcript s) t)
  ∧ (∀ E conns,
        Accumulator.transcript_of E conns
          [Accumulator.span_of "Hello"; Accumulator.span_of "world";
           Accumulator.span_of String.EmptyString]
        = lit "Hello world").
Proof.
  split.
  - intros E conns history st et t s. unfold Accumulator.fold. simpl.
    rewrite callback_transcript. apply next_transcript_spec.
    apply (transcript_of_trimmed E conns history).
  - intros E conns. unfold Accumulator.transcript_of.
    rewrite fold_all_transcript. vm_compute. reflexivity.
Qed.

(** C2.  Along every sequence of folds into a fresh accumulator the
    transcript only grows at its end: the transcript after any part of the
    sequence is a prefix of the transcript after the whole sequence, so its
    length never decreases and nothing already in it is rewritten.  And
    folding a span whose text is empty or whitespace only leaves the
    server's state, the transcript included, exactly as it was. *)
Theorem transcript_append_only :
  (∀ E conns sps more,
      let before := Accumulator.transcript_of E conns sps in
      let after := Accumulator.transcript_of E conns (sps ++ more) in
      (length before ≤ length after)%nat ∧ before `prefix_of` after)
  ∧ (∀ E s st et t,
        blank t → Accumulator.fold E s (Span st et (PStr t)) = s).
Proof.
  split.
  - intros E conns sps more before after.
    assert (Hp : before `prefix_of` after).
    { subst before after. unfold Accumulator.transcript_of.
      rewrite (fold_all_transcript E _ (sps ++ more)), foldl_app.
      rewrite <- (fold_all_transcript E (Accumulator.fresh conns) sps).
      apply foldl_next_prefix. apply (transcript_of_trimmed E conns sps). }
    split; [|exact Hp]. by apply prefix_length.
  - intros E s st et t Hb.
    unfold Accumulator.fold, Accumulator.transcript_callback.
    cbn [start_time end_time text]. by rewrite new_text_blank.
Qed.

Lemma transcript_append_only_witness :
  blank (lit "  ")
  ∧ Accumulator.fold (Env NoCurrentLoop (λ _, false) (λ _ _ _, SendDone)
                        (λ _, PyFloat 0 0))
      (Accumulator.fresh ∅) (Span PNone PNone (PStr (lit "  ")))
    = Accumulator.fresh ∅.
Proof.
  assert (Hb : blank (lit "  ")) by (repeat constructor).
  split; [exact Hb|].
  exact (proj2 transcript_append_only _ _ _ _ _ Hb).
Defined.

(** C8.  The final transcript is a function of the sequence of spans
    alone: two runs that fold the same sequence into fresh accumulators end
    with the same transcript, whatever the event loop, the subscribers and
    the outcome of the sends are in either run. *)
Theorem fold_deterministic :
  ∀ sps E1 E2 conns1 conns2,
    Accumulator.transcript_of E1 conns1 sps
    = Accumulator.transcript_of E2 conns2 sps.
Proof.
  intros sps E1 E2 conns1 conns2. unfold Accumulator.transcript_of.
  by rewrite !fold_all_transcript.
Qed.

(** C9.  Every transcript reached from the empty one by folds has no
    leading and no trailing whitespace: it equals its own [strip]. *)
Theorem transcript_is_stripped :
  ∀ E conns sps,
    strip (Accumulator.transcript_of E conns sps)
    = Accumulator.transcript_of E conns sps.
Proof. intros E conns sps. apply transcript_of_trimmed. Qed.

(** C10.  A call of the callback whose text is [None]: the [None] is taken
    as the empty text, the call returns normally, and the server's state,
    the transcript included, is unchanged, as for a call with the empty
    string; the same holds for a span folded by the accumulator. *)
Theorem none_text_is_noop :
  ∀ E st et s,
    Accumulator.new_text_of PNone = Return []
    ∧ Accumulator.transcript_callback E st et PNone s = (s, Return tt)
    ∧ Accumulator.transcript_callback E st et PNone s
      = Accumulator.transcript_callback E st et (PStr []) s
    ∧ Accumulator.fold E s (Span st et PNone) = s.
Proof.
  intros E st et s. unfold Accumulator.fold, Accumulator.transcript_callback.
  cbn [start_time end_time text].
  assert (Hnone : Accumulator.new_text_of PNone = Return []) by reflexivity.
  assert (Hempty : Accumulator.new_text_of (PStr []) = Return [])
    by reflexivity.
  rewrite Hnone, Hempty. cbn [truthy negb fst]. done.
Qed.

(** ** BroadcastHub *)

Section HubFacts.
Import Hub.

Lemma create_tasks_spec E cs :
  create_tasks E cs
  = (List.filter (create_task_raises E) cs,
     List.filter (λ c, negb (create_task_raises E c)) cs).
Proof.
  induction cs as [|c r IH]; [done|].
  simpl. rewrite IH. by destruct (create_task_raises E c).
Qed.

Lemma await_tasks_spec E m tasks :
  await_tasks E m tasks
  = (List.filter (λ c, wait_failed (wait_for E c m send_timeout)) tasks,
     (λ c, Attempt c m send_timeout (wait_for E c m send_timeout)) <$> tasks).
Proof.
  induction tasks as [|c r IH]; [done|].
  simpl. rewrite IH. by destruct (wait_failed _).
Qed.

Lemma discard_all_spec d (cs : gset conn) :
  discard_all d cs = cs ∖ list_to_set d.
Proof.
  revert cs. induction d as [|c r IH]; intros cs; simpl.
  - set_solver.
  - rewrite IH. set_solver.
Qed.

Lemma elem_of_bfilter {A} (f : A → bool) (l : list A) x :
  x ∈ List.filter f l ↔ x ∈ l ∧ f x = true.
Proof.
  rewrite !list_elem_of_In, filter_In. done.
Qed.

Lemma NoDup_bfilter {A} (f : A → bool) (l : list A) :
  NoDup l → NoDup (List.filter f l).
Proof.
  induction 1 as [|x l Hx Hl IH]; simpl; [constructor|].
  destruct (f x); [|done]. constructor; [|done].
  rewrite elem_of_bfilter. tauto.
Qed.

(** The state a broadcast to a non-empty set leaves. *)
Lemma broadcast_unfold E now t s :
  connections s ≠ ∅ →
  let m := full_message t now in
  let tasks := List.filter (λ c, negb (create_task_raises E c))
                 (elements (connections s)) in
  broadcast_full_transcript E now t s
  = set_connections
      (connections s
         ∖ list_to_set
             (List.filter (create_task_raises E) (elements (connections s))
              ++ List.filter
                   (λ c, wait_failed (wait_for E c m send_timeout)) tasks))
      (log_attempts
         ((λ c, Attempt c m send_timeout (wait_for E c m send_timeout))
            <$> tasks)
         (log_broadcast t s)).
Proof.
  intros Hne m tasks. unfold broadcast_full_transcript.
  cbn [log_broadcast connections].
  rewrite bool_decide_eq_false_2 by done.
  rewrite create_tasks_spec, await_tasks_spec, discard_all_spec. done.
Qed.

Lemma broadcast_empty E now t s :
  connections s = ∅ → broadcast_full_transcript E now t s = log_broadcast t s.
Proof.
  intros He. unfold broadcast_full_transcript.
  cbn [log_broadcast connections]. by rewrite bool_decide_eq_true_2.
Qed.

Lemma broadcast_connections E now t s c :
  c ∈ connections (broadcast_full_transcript E now t s)
  ↔ c ∈ connections s ∧ survives E (full_message t now) c = true.
Proof.
  destruct (decide (connections s = ∅)) as [He|Hne].
  - rewrite broadcast_empty by done. cbn [log_broadcast connections].
    rewrite He. set_solver.
  - rewrite broadcast_unfold by done. cbn [set_connections connections].
    rewrite elem_of_difference, elem_of_list_to_set, elem_of_app.
    rewrite !elem_of_bfilter, !elem_of_elements. unfold survives.
    destruct (create_task_raises E c), (wait_failed _); simpl; split;
      try tauto; intros [? ?]; try done; split; try done.
    all: intros [[? ?]|[[? ?] ?]]; done.
Qed.

Lemma broadcast_attempts E now t s :
  let m := full_message t now in
  attempts (broadcast_full_transcript E now t s)
  = attempts s
    ++ ((λ c, Attempt c m send_timeout (wait_for E c m send_timeout))
          <$> List.filter (λ c, negb (create_task_raises E c))
                (elements (connections s))).
Proof.
  intros m. destruct (decide (connections s = ∅)) as [He|Hne].
  - rewrite broadcast_empty by done. cbn [log_broadcast attempts].
    rewrite He, elements_empty. simpl. by rewrite app_nil_r.
  - by rewrite broadcast_unfold.
Qed.

End HubFacts.

(** C5.  One call of [broadcast_full_transcript]: every awaited send uses
    the fixed timeout of 100 ms and carries the message of this call; each
    subscriber whose send task was created is awaited exactly once; the
    subscribers left in the set when the call ends are exactly those whose
    task was created and whose send completed in time, so every one whose
    send failed, raised or timed out is gone; the send to each of the
    others is recorded as done; a later broadcast awaits sends to the
    survivors only; and with no subscriber the call sends nothing and
    leaves the set as it is. *)
Theorem publish_evicts_failed :
  ∀ E now t s,
    let m := Hub.full_message t now in
    let s' := Hub.broadcast_full_transcript E now t s in
    ∃ log,
      attempts s' = attempts s ++ log
      ∧ Forall (λ a, a_timeout a = 100 ∧ a_message a = m
                     ∧ a_outcome a = wait_for E (a_conn a) m 100) log
      ∧ NoDup (a_conn <$> log)
      ∧ (∀ c, c ∈ a_conn <$> log
              ↔ c ∈ connections s ∧ create_task_raises E c = false)
      ∧ (∀ c, c ∈ connections s'
              ↔ c ∈ connections s ∧ Hub.survives E m c = true)
      ∧ (∀ c, c ∈ connections s → Hub.survives E m c = true →
              Attempt c m 100 SendDone ∈ log)
      ∧ (∀ E2 now2 t2 a,
            a ∈ attempts (Hub.broadcast_full_transcript E2 now2 t2 s') →
            a ∈ attempts s' ∨ a_conn a ∈ connections s')
      ∧ (connections s = ∅ → s' = log_broadcast t s).
Proof.
  intros E now t s m s'.
  set (tasks := List.filter (λ c, negb (create_task_raises E c))
                  (elements (connections s))).
  set (mk := λ c, Attempt c m Hub.send_timeout
                    (wait_for E c m Hub.send_timeout)).
  assert (Hconn : a_conn <$> (mk <$> tasks) = tasks).
  { generalize tasks. intros l. induction l as [|c l IH]; [done|].
    cbn [fmap list_fmap]. f_equal. exact IH. }
  assert (Htasks : ∀ c, c ∈ tasks
                        ↔ c ∈ connections s ∧ create_task_raises E c = false).
  { intros c. unfold tasks. rewrite elem_of_bfilter, elem_of_elements.
    destruct (create_task_raises E c); simpl; naive_solver. }
  exists (mk <$> tasks). split_and!.
  - apply broadcast_attempts.
  - apply Forall_fmap, Forall_forall. by intros c _.
  - rewrite Hconn. apply NoDup_bfilter, NoDup_elements.
  - intros c. rewrite Hconn. apply Htasks.
  - intros c. apply broadcast_connections.
  - intros c Hc Hs. apply list_elem_of_fmap. exists c.
    unfold Hub.survives in Hs. apply andb_true_iff in Hs as [Hr Hw].
    split.
    + unfold mk. fold Hub.send_timeout.
      destruct (wait_for E c m Hub.send_timeout); done.
    + apply Htasks. split; [done|]. by destruct (create_task_raises E c).
  - intros E2 now2 t2 a. rewrite broadcast_attempts, elem_of_app.
    intros [Ha|Ha]; [by left|right].
    apply list_elem_of_fmap in Ha as (c & -> & Hc).
    apply elem_of_bfilter in Hc as [Hc _]. by apply elem_of_elements in Hc.
  - intros He. by apply broadcast_empty.
Qed.

(** With S1 responsive and S2 never accepting data, one broadcast keeps S1
    and evicts S2. *)
Lemma publish_evicts_failed_witness :
  let E := Env NoCurrentLoop (λ _, false)
             (λ c _ _, if (c =? 2)%positive then SendTimeout else SendDone)
             (λ _, PyFloat 0 0) in
  let s' := Hub.broadcast_full_transcript E (PyFloat 0 0) (lit "Hello")
              (Accumulator.fresh {[1%positive; 2%positive]}) in
  1%positive ∈ connections s' ∧ 2%positive ∉ connections s'.
Proof.
  intros E s'.
  destruct (publish_evicts_failed E (PyFloat 0 0) (lit "Hello")
              (Accumulator.fresh {[1%positive; 2%positive]}))
    as (log & _ & _ & _ & _ & Hsurv & _).
  fold s' in Hsurv. split.
  - apply Hsurv. split; [set_solver | reflexivity].
  - intros H2. apply Hsurv in H2 as [_ H2]. discriminate H2.
Defined.

(** ** Session handler *)

Lemma eq_str_true v s : eq_str v s = true ↔ v = Some (PStr s).
Proof.
  unfold eq_str. destruct v as [[]|]; try (split; [discriminate|congruence]).
  rewrite bool_decide_eq_true. split; congruence.
Qed.

(** C6.  The handler at a received message that is valid JSON but not an
    object, the text [42]: [data.get] raises [AttributeError], so the
    message is not accepted the way an object of another type is.  In a
    session that receives it and then a ping, the exception leaves the
    loop: the greeting is the only message sent (the ping gets no pong),
    the error is printed between the two connection lines, and the session
    is unregistered; the same session without that message answers the
    ping with a pong. *)
Theorem non_object_message_ends_session :
  let m := Session.Decoded (PInt 42) in
  let ping := Session.Decoded (PDict [(lit "type", PStr (lit "ping"))]) in
  (∀ ws r s,
      Session.handle_message ws m r s
      = (s, Session.Crashed "AttributeError"%string))
  ∧ ¬ Session.accepted m
  ∧ (∀ ws s,
        let s' := Session.handle_client ws Session.SendReturns
                    [(m, Session.SendReturns); (ping, Session.SendReturns)]
                    Session.Closed s in
        sent s' = sent s ++ [(ws, Session.welcome)]
        ∧ stdout s'
          = stdout s
            ++ [LogConnected (size ({[ws]} ∪ connections s));
                LogHandlerError "AttributeError"%string;
                LogDisconnected (size (connections s ∖ {[ws]}))]
        ∧ (ws ∉ connections s')
        ∧ full_transcript s' = full_transcript s)
  ∧ (∀ ws s,
        sent (Session.handle_client ws Session.SendReturns
                [(ping, Session.SendReturns)] Session.Closed s)
        = sent s ++ [(ws, Session.welcome); (ws, Session.pong)]).
Proof.
  cbv zeta. split_and!.
  - reflexivity.
  - intros Hacc.
    specialize (Hacc 1%positive Session.SendReturns initial_server).
    discriminate Hacc.
  - intros ws s. destruct s as [conns ft uc out bc att snt].
    assert (Hset : ({[ws]} ∪ conns) ∖ {[ws]} = conns ∖ {[ws]}) by set_solver.
    unfold Session.handle_client, Hub.register, Hub.unregister. cbn.
    rewrite Hset. split_and!; [done| |set_solver|done].
    by rewrite <- !app_assoc.
  - intros ws s.
    assert (Hp : ∀ s0,
               Session.handle_message ws
                 (Session.Decoded (PDict [(lit "type", PStr (lit "ping"))]))
                 Session.SendReturns s0
               = (log_sent ws Session.pong s0, Session.Continue))
      by reflexivity.
    unfold Session.handle_client, Session.send.
    cbn [Session.message_loop]. rewrite Hp.
    destruct s as [conns ft uc out bc att snt]. cbn.
    by rewrite <- !app_assoc.
Qed.

(** ** Capture callback, worker and shutdown *)

Section PipelineFacts.
Import Pipeline.
Context {frame engine cbstate : Type}.
Implicit Types (w : state frame engine cbstate).
Implicit Types (tr : list (event frame)).
Implicit Types (C : config frame engine cbstate).

Lemma inserted_app tr1 tr2 :
  inserted (tr1 ++ tr2) = inserted tr1 ++ inserted tr2.
Proof. unfold inserted. apply omap_app. Qed.

Lemma finish_calls_app tr1 tr2 :
  finish_calls (tr1 ++ tr2) = (finish_calls tr1 + finish_calls tr2)%nat.
Proof. unfold finish_calls. by rewrite List.filter_app, length_app. Qed.

Lemma callback_calls_app tr1 tr2 :
  callback_calls (tr1 ++ tr2) = callback_calls tr1 ++ callback_calls tr2.
Proof. unfold callback_calls. apply omap_app. Qed.

Lemma quiet_app tr1 tr2 : quiet tr1 → quiet tr2 → quiet (tr1 ++ tr2).
Proof.
  intros [Hi1 Hf1] [Hi2 Hf2]. split.
  - by rewrite inserted_app, Hi1, Hi2.
  - by rewrite finish_calls_app, Hf1, Hf2.
Qed.

Lemma calm_refl w : calm w w.
Proof.
  split_and!; [done..|]. exists []. by rewrite app_nil_r.
Qed.

Lemma calm_trans w1 w2 w3 : calm w1 w2 → calm w2 w3 → calm w1 w3.
Proof.
  intros (Hq1 & Hr1 & tr1 & Ht1 & Hqu1) (Hq2 & Hr2 & tr2 & Ht2 & Hqu2).
  split_and!; [congruence..|]. exists (tr1 ++ tr2). split.
  - by rewrite Ht2, Ht1, app_assoc.
  - by apply quiet_app.
Qed.

Lemma calm_log ev w :
  quiet [ev] → calm w (log ev w).
Proof. intros Hq. split_and!; [done..|]. by exists [ev]. Qed.

Lemma calm_set_eng e w : calm w (set_eng e w).
Proof.
  split_and!; [done..|]. exists []. split; [|done].
  cbn [set_eng trace]. by rewrite app_nil_r.
Qed.

Lemma calm_set_cb c w : calm w (set_cb c w).
Proof.
  split_and!; [done..|]. exists []. split; [|done].
  cbn [set_cb trace]. by rewrite app_nil_r.
Qed.

Lemma call_callback_calm C on_error st et tx w :
  calm w (call_callback C on_error st et tx w).
Proof.
  unfold call_callback. destruct (transcript_callback C) as [f|].
  - destruct (f _ _ _ _) as [c r] eqn:Hf.
    eapply calm_trans; [by apply (calm_log (EvCallback st et tx))|].
    destruct r as [?|x].
    + apply calm_set_cb.
    + eapply calm_trans; [apply calm_set_cb|]. by apply calm_log.
  - apply calm_refl.
Qed.

Lemma write_span_calm C r w : calm w (write_span C r w).1.
Proof.
  unfold write_span. destruct (output_file C); [|apply calm_refl].
  destruct (json_output C); [by apply calm_log|].
  destruct (format_span _ _); [by apply calm_log | apply calm_refl].
Qed.

Lemma print_span_calm C r w : calm w (print_span C r w).1.
Proof.
  unfold print_span. destruct (_ || _); [|apply calm_refl].
  destruct (format_span _ _); [by apply calm_log | apply calm_refl].
Qed.

Lemma handle_result_calm C r w : calm w (handle_result C r w).1.
Proof.
  unfold handle_result. destruct (py_truthy _); [|apply calm_refl].
  eapply calm_trans; [apply call_callback_calm|].
  pose proof (write_span_calm C r (call_callback C ErrCallback
                (start_time r) (end_time r) (text r) w)) as Hw.
  destruct (write_span _ _ _) as [w1 [?|x]]; [|exact Hw].
  eapply calm_trans; [exact Hw|]. apply print_span_calm.
Qed.

Lemma handle_final_calm C r w : calm w (handle_final C r w).
Proof.
  unfold handle_final. destruct (py_truthy _); [|apply calm_refl].
  cbv zeta. set (w1 := call_callback _ _ _ _ _ _).
  assert (H1 : calm w w1) by apply call_callback_calm.
  assert (H2 : ∀ ev, quiet [ev] → calm w (log ev w1)).
  { intros ev Hev. eapply calm_trans; [exact H1|]. by apply calm_log. }
  assert (H3 : ∀ ev1 ev2,
             quiet [ev1] → quiet [ev2] → calm w (log ev2 (log ev1 w1))).
  { intros ev1 ev2 Hev1 Hev2. eapply calm_trans; [exact (H2 ev1 Hev1)|].
    by apply calm_log. }
  destruct (output_file C), (json_output C); cbn [negb orb];
    first [by apply H3 | by apply H2 | exact H1].
Qed.

(** One chunk through the worker: the chunk goes to the engine first,
    the rest of what happens is quiet. *)
Lemma try_chunk_trace C chunk w :
  let w' := (try_chunk C chunk w).1 in
  audio_queue w' = audio_queue w ∧ running w' = running w
  ∧ ∃ tr, trace w' = trace w ++ EvInsert chunk :: tr ∧ quiet tr.
Proof.
  unfold try_chunk.
  destruct (insert_audio_chunk _ _ _) as [e1 r1].
  destruct r1 as [?|x]; cbn [fst].
  2:{ split_and!; [done..|]. by exists []. }
  cbn [log set_eng eng].
  destruct (process_iter _ _) as [e2 r2].
  destruct r2 as [r|x]; cbn [fst].
  2:{ split_and!; [done..|]. exists [EvProcessIter]. split; [|done].
      cbn [log set_eng trace]. by rewrite <- app_assoc. }
  match goal with |- context [handle_result C r ?w0] =>
    destruct (handle_result_calm C r w0) as (Hq & Hr & tr & Ht & Hqu)
  end.
  split_and!; [done..|]. exists (EvProcessIter :: tr). split.
  - rewrite Ht. cbn [log set_eng trace]. by rewrite <- !app_assoc.
  - by apply (quiet_app [EvProcessIter] tr).
Qed.

Lemma process_chunk_trace C chunk w :
  let w' := process_chunk C chunk w in
  audio_queue w' = audio_queue w ∧ running w' = running w
  ∧ ∃ tr, trace w' = trace w ++ EvInsert chunk :: tr ∧ quiet tr.
Proof.
  unfold process_chunk.
  destruct (try_chunk_trace C chunk w) as (Hq & Hr & tr & Ht & Hqu).
  destruct (try_chunk C chunk w) as [w1 [?|x]]; cbn [fst] in *.
  - split_and!; [done..|]. by exists tr.
  - split_and!; [done..|]. exists (tr ++ [EvStderr (ErrProcessing x)]).
    split.
    + cbn [log trace]. rewrite Ht. by rewrite <- app_assoc.
    + by apply quiet_app.
Qed.

Lemma worker_iteration_some C w chunk rest :
  Queue.items (audio_queue w) = chunk :: rest → balanced w →
  let w' := worker_iteration C w in
  Queue.items (audio_queue w') = rest
  ∧ Queue.maxsize (audio_queue w') = Queue.maxsize (audio_queue w)
  ∧ balanced w' ∧ running w' = running w
  ∧ ∃ tr, trace w' = trace w ++ EvInsert chunk :: tr ∧ quiet tr.
Proof.
  intros Hi Hb. cbv zeta. unfold worker_iteration, Queue.get. rewrite Hi.
  unfold balanced in Hb. rewrite Hi in Hb. cbn [length] in Hb. rewrite Hb.
  set (w0 := set_queue _ w).
  destruct (process_chunk_trace C chunk w0) as (Hq & Hr & tr & Ht & Hqu).
  unfold Queue.task_done. rewrite Hq. subst w0.
  cbn [set_queue audio_queue Queue.unfinished_tasks].
  cbn [set_queue audio_queue Queue.items Queue.maxsize Queue.unfinished_tasks
         running cb trace] in *.
  split; [done|]. split; [done|]. split; [done|]. split; [done|].
  by exists tr.
Qed.

Lemma worker_iteration_none C w :
  Queue.items (audio_queue w) = [] → worker_iteration C w = w.
Proof. intros Hi. unfold worker_iteration, Queue.get. by rewrite Hi. Qed.

Lemma worker_step_some C w chunk rest :
  Queue.items (audio_queue w) = chunk :: rest →
  worker_step C w = worker_iteration C w.
Proof.
  intros Hi. unfold worker_step, worker_alive, Queue.empty. rewrite Hi.
  by rewrite orb_true_r.
Qed.

Lemma worker_step_none C w :
  Queue.items (audio_queue w) = [] → worker_step C w = w.
Proof.
  intros Hi. unfold worker_step. rewrite worker_iteration_none by done.
  by destruct (worker_alive w).
Qed.


Lemma finish_phase_trace C w :
  let w' := finish_phase C w in
  audio_queue w' = audio_queue w ∧ running w' = running w
  ∧ ∃ tr, trace w' = trace w ++ [EvStdout Finishing; EvFinish] ++ tr
          ∧ quiet tr.
Proof.
  cbv zeta. unfold finish_phase. cbn [log eng].
  destruct (finish _ _) as [e r].
  set (w0 := log EvFinish _).
  assert (Ht0 : trace w0 = trace w ++ [EvStdout Finishing; EvFinish]).
  { subst w0. cbn [log set_eng trace]. by rewrite <- app_assoc. }
  assert (Hc : calm w0 (match r with
                        | Return final_result => handle_final C final_result w0
                        | Raise x => log (EvStdout (ErrFinishing x)) w0
                        end)).
  { destruct r; [apply handle_final_calm | by apply calm_log]. }
  destruct Hc as (Hq & Hr & tr & Ht & Hqu).
  cbn [log audio_queue running trace].
  split; [by rewrite Hq|]. split; [by rewrite Hr|].
  exists (tr ++ [EvStdout Stopped; EvStdout ClosingRule]). split.
  - rewrite Ht, Ht0. by rewrite <- !app_assoc.
  - by apply quiet_app.
Qed.

Lemma run_snoc C w l a : run C w (l ++ [a]) = act C (run C w l) a.
Proof. unfold run. by rewrite foldl_app. Qed.

Lemma captured_snoc (l : list (action frame)) a :
  captured (l ++ [a]) = captured l ++ captured [a].
Proof. unfold captured. apply omap_app. Qed.

(** What the capture callback does to the queue. *)
Lemma audio_callback_queue status chunk w :
  let w' := (audio_callback status chunk w).1 in
  running w' = running w
  ∧ (∃ tr, trace w' = trace w ++ tr ∧ quiet tr)
  ∧ audio_queue w'
    = if running w && negb (Queue.full (audio_queue w))
      then Queue.Q (Queue.maxsize (audio_queue w))
             (Queue.items (audio_queue w) ++ [chunk])
             (S (Queue.unfinished_tasks (audio_queue w)))
      else audio_queue w.
Proof.
  cbv zeta. unfold audio_callback.
  set (w1 := match status with Some _ => _ | None => w end).
  assert (Hc : calm w w1).
  { subst w1. destruct status; [by apply calm_log | apply calm_refl]. }
  destruct Hc as (Hq & Hr & Htr). rewrite Hr, <- Hq.
  destruct (running w); cbn [negb andb fst].
  - unfold Queue.put_nowait. destruct (Queue.full (audio_queue w1));
      cbn [negb fst set_queue running trace audio_queue]; done.
  - done.
Qed.

(** Along any interleaving of captures and worker turns, from the start:
    the queue keeps its capacity and stays within it, the unfinished
    tasks are the queued chunks, the engine has not been finished, and
    the chunks given to the engine followed by those still queued are,
    in order, chunks that were captured. *)
Lemma run_invariant C (n : Z) e c l :
  (0 < n)%Z →
  let w := run C (start_with n e c) l in
  Queue.maxsize (audio_queue w) = n
  ∧ balanced w
  ∧ (Z.of_nat (length (Queue.items (audio_queue w))) ≤ n)%Z
  ∧ finish_calls (trace w) = 0%nat
  ∧ inserted (trace w) ++ Queue.items (audio_queue w) `sublist_of` captured l.
Proof.
  intros Hn. cbv zeta. induction l as [|a l IH] using rev_ind.
  - cbn. split_and!; try done. lia.
  - rewrite run_snoc, captured_snoc.
    destruct IH as (Hm & Hb & Hlen & Hf & Hs).
    set (w := run C (start_with n e c) l) in *.
    destruct a as [status chunk|]; cbn [act].
    + destruct (audio_callback_queue status chunk w)
        as (Hr & (tr & Ht & Hqi & Hqf) & Hq).
      rewrite Ht, inserted_app, finish_calls_app, Hqi, Hqf, Hf, app_nil_r.
      unfold balanced. rewrite Hq.
      destruct (running w && negb (Queue.full (audio_queue w))) eqn:Hput;
        cbn [Queue.maxsize Queue.items Queue.unfinished_tasks captured omap].
      * apply andb_true_iff in Hput as [_ Hfull].
        unfold Queue.full, Queue.qsize in Hfull. rewrite Hm in Hfull.
        apply negb_true_iff, andb_false_iff in Hfull.
        split_and!; try done.
        -- unfold balanced in Hb. rewrite length_app. cbn. lia.
        -- rewrite length_app. cbn. lia.
        -- rewrite app_assoc. by apply sublist_app.
      * split_and!; try done. by apply sublist_inserts_r.
    + cbn [captured omap]. rewrite app_nil_r.
      destruct (Queue.items (audio_queue w)) as [|chunk rest] eqn:Hi.
      * rewrite worker_step_none by done. rewrite Hi. split_and!; done.
      * rewrite (worker_step_some C w chunk rest) by done.
        destruct (worker_iteration_some C w chunk rest Hi Hb)
          as (Hi1 & Hm1 & Hb1 & Hr1 & tr1 & Ht1 & Hq1 & Hf1).
        rewrite Hi1, Hm1, Ht1. split_and!; try done.
        -- cbn [length] in Hlen. lia.
        -- change (EvInsert chunk :: tr1) with ([EvInsert chunk] ++ tr1).
           rewrite !finish_calls_app, Hf, Hf1. done.
        -- change (EvInsert chunk :: tr1) with ([EvInsert chunk] ++ tr1).
           rewrite !inserted_app, Hq1, app_nil_r. cbn [inserted omap].
           by rewrite <- app_assoc.
Qed.

(** Captures alone: the queue holds the first chunks, up to its
    capacity. *)
Lemma run_captures C w chunks :
  running w = true → (0 < Queue.maxsize (audio_queue w))%Z →
  (Z.of_nat (length (Queue.items (audio_queue w)))
   ≤ Queue.maxsize (audio_queue w))%Z →
  Queue.items (audio_queue (run C w (Capture None <$> chunks)))
  = take (Z.to_nat (Queue.maxsize (audio_queue w)))
      (Queue.items (audio_queue w) ++ chunks).
Proof.
  revert w. induction chunks as [|chunk chunks IH]; intros w Hr Hm Hlen.
  - cbn. rewrite app_nil_r, take_ge; [done | lia].
  - cbn [fmap list_fmap run foldl act].
    destruct (audio_callback_queue None chunk w) as (Hr1 & _ & Hq).
    set (w1 := (audio_callback None chunk w).1) in *.
    change (foldl (act C) w1 (Capture None <$> chunks))
      with (run C w1 (Capture None <$> chunks)).
    rewrite Hr in Hq. cbn [andb] in Hq.
    destruct (Queue.full (audio_queue w)) eqn:Hfull; cbn [negb] in Hq.
    + rewrite IH; rewrite ?Hq; try done; [|congruence].
      unfold Queue.full, Queue.qsize in Hfull.
      apply andb_true_iff in Hfull as [_ Hfull].
      apply Z.leb_le in Hfull.
      rewrite !take_app_le by lia. done.
    + unfold Queue.full, Queue.qsize in Hfull.
      apply andb_false_iff in Hfull as [Hfull|Hfull];
        [apply Z.ltb_ge in Hfull; lia|]. apply Z.leb_gt in Hfull.
      rewrite IH; rewrite ?Hq; cbn [Queue.maxsize Queue.items];
        try done; [| congruence | rewrite length_app; cbn; lia].
      by rewrite <- app_assoc.
Qed.

Lemma run_running C (n : Z) e c l :
  running (run C (start_with n e c) l) = true.
Proof.
  induction l as [|a l IH] using rev_ind; [done|].
  rewrite run_snoc. destruct a as [status chunk|]; cbn [act].
  - destruct (audio_callback_queue status chunk
                (run C (start_with n e c) l)) as (Hr & _).
    by rewrite Hr.
  - destruct (Queue.items (audio_queue (run C (start_with n e c) l)))
      as [|chunk rest] eqn:Hi.
    + by rewrite worker_step_none.
    + unfold worker_step, worker_alive. rewrite IH. cbn [orb].
      unfold worker_iteration, Queue.get. rewrite Hi.
      set (w0 := set_queue _ _).
      destruct (process_chunk_trace C chunk w0) as (_ & Hr & _).
      assert (Hr0 : running w0 = true) by (subst w0; exact IH).
      destruct (Queue.task_done _); cbn [set_queue running];
        rewrite ?Hr; [done|]. rewrite Hr0. cbn [log running]. congruence.
Qed.

(** The worker's turn on a chunk the engine raises on. *)
Lemma worker_iteration_raises C w chunk rest x :
  Queue.items (audio_queue w) = chunk :: rest → balanced w →
  engine_raises C chunk w x →
  ∃ e tr,
    worker_iteration C w
    = State e (cb w)
        (Queue.Q (Queue.maxsize (audio_queue w)) rest (length rest))
        (running w)
        (trace w ++ EvInsert chunk :: tr ++ [EvStderr (ErrProcessing x)])
    ∧ callback_calls tr = [].
Proof.
  intros Hi Hb Hx. unfold balanced in Hb. rewrite Hi in Hb. cbn in Hb.
  unfold worker_iteration, Queue.get. rewrite Hi.
  unfold process_chunk, try_chunk. cbn [eng set_queue].
  destruct Hx as [Hx|(e1 & Hins & Hx)].
  - destruct (insert_audio_chunk _ _ _) as [e1 r1]. cbn in Hx. subst r1.
    cbn [log set_eng audio_queue Queue.task_done Queue.unfinished_tasks].
    rewrite Hb. cbn. exists e1, []. split; [|done].
    unfold set_queue, log, set_eng. cbn. by rewrite <- app_assoc.
  - rewrite Hins. cbn [log set_eng eng].
    destruct (process_iter _ _) as [e2 r2]. cbn in Hx. subst r2.
    cbn [log set_eng audio_queue Queue.task_done Queue.unfinished_tasks].
    rewrite Hb. cbn. exists e2, [EvProcessIter]. split; [|done].
    unfold set_queue, log, set_eng. cbn. by rewrite <- !app_assoc.
Qed.


End PipelineFacts.

(** C3.  For a queue of capacity [n > 0] (the pipeline's is 5): along any
    interleaving of captures and worker turns the queue never holds more
    than [n] chunks, and the chunks the worker has taken followed by those
    still queued are captured chunks in their order of capture; a capture
    that finds the queue full returns normally and leaves the queue as it
    is, so the incoming chunk is the one dropped; after captures alone the
    queue holds the first [n] chunks, in order; and the worker takes the
    oldest queued chunk. *)
Theorem ingest_queue_bounded :
  ∀ {frame engine cbstate : Type}
    (C : Pipeline.config frame engine cbstate) (n : Z) e c,
    (0 < n)%Z →
    (∀ l, let w := Pipeline.run C (Pipeline.start_with n e c) l in
          (Z.of_nat (Queue.qsize (Pipeline.audio_queue w)) ≤ n)%Z
          ∧ Pipeline.inserted (Pipeline.trace w)
              ++ Queue.items (Pipeline.audio_queue w)
            `sublist_of` Pipeline.captured l)
    ∧ (∀ (w : Pipeline.state frame engine cbstate) status chunk,
          Pipeline.running w = true →
          Queue.full (Pipeline.audio_queue w) = true →
          (Pipeline.audio_callback status chunk w).2 = Return tt
          ∧ Pipeline.audio_queue (Pipeline.audio_callback status chunk w).1
            = Pipeline.audio_queue w)
    ∧ (∀ chunks,
          Queue.items
            (Pipeline.audio_queue
               (Pipeline.run C (Pipeline.start_with n e c)
                  (Pipeline.Capture None <$> chunks)))
          = take (Z.to_nat n) chunks)
    ∧ (∀ l chunk rest,
          let w := Pipeline.run C (Pipeline.start_with n e c) l in
          Queue.items (Pipeline.audio_queue w) = chunk :: rest →
          Queue.items (Pipeline.audio_queue (Pipeline.worker_step C w)) = rest
          ∧ ∃ tr, Pipeline.trace (Pipeline.worker_step C w)
                  = Pipeline.trace w ++ Pipeline.EvInsert chunk :: tr).
Proof.
  intros frame engine cbstate C n e c Hn. split_and!.
  - intros l w. destruct (run_invariant C n e c l Hn) as (_ & _ & Hlen & _ & Hs).
    split; [exact Hlen | exact Hs].
  - intros w status chunk Hr Hfull.
    destruct (audio_callback_queue status chunk w) as (_ & _ & Hq).
    rewrite Hfull, andb_false_r in Hq. split; [|exact Hq].
    unfold Pipeline.audio_callback.
    set (w1 := match status with Some _ => _ | None => w end).
    assert (Hc : Pipeline.calm w w1).
    { subst w1. destruct status; [by apply calm_log | apply calm_refl]. }
    destruct Hc as (Hq1 & Hr1 & _). rewrite Hr1, Hr. cbn [negb].
    unfold Queue.put_nowait. by rewrite Hq1, Hfull.
  - intros chunks. rewrite run_captures; cbn; try done. lia.
  - intros l chunk rest w Hi.
    destruct (run_invariant C n e c l Hn) as (_ & Hb & _).
    rewrite (worker_step_some C w chunk rest) by done.
    destruct (worker_iteration_some C w chunk rest Hi Hb)
      as (Hi1 & _ & _ & _ & tr & Ht & _).
    split; [exact Hi1|]. by exists tr.
Qed.

(** Seven captures into the pipeline's queue of five: the first five stay. *)
Lemma ingest_queue_bounded_witness :
  Queue.items
    (Pipeline.audio_queue
       (Pipeline.run (Pipeline.scripted_config [])
          (Pipeline.start [] (Accumulator.fresh ∅))
          (Pipeline.Capture None <$> [1; 2; 3; 4; 5; 6; 7]%nat)))
  = [1; 2; 3; 4; 5]%nat.
Proof.
  assert (H5 : (0 < 5)%Z) by lia.
  destruct (ingest_queue_bounded (Pipeline.scripted_config []) 5 []
              (Accumulator.fresh ∅) H5) as (_ & _ & H & _).
  exact (H [1; 2; 3; 4; 5; 6; 7]%nat).
Defined.

(** C7.  In the server's pipeline, at any point of any run, when the engine
    raises on the chunk the worker takes from the queue: the error is
    printed as a processing error, the callback is not called, the server's
    globals and so the canonical transcript are as before, the chunk is
    gone from the queue, and the worker's loop goes on: its next turn gives
    the next queued chunk to the engine. *)
Theorem engine_error_skips_frame :
  ∀ {frame engine : Type} (C : Pipeline.config frame engine server)
    e0 c0 l chunk rest x,
    let w := Pipeline.run C (Pipeline.start e0 c0) l in
    Queue.items (Pipeline.audio_queue w) = chunk :: rest →
    Pipeline.engine_raises C chunk w x →
    let w' := Pipeline.worker_step C w in
    Pipeline.cb w' = Pipeline.cb w
    ∧ full_transcript (Pipeline.cb w') = full_transcript (Pipeline.cb w)
    ∧ Pipeline.callback_calls (Pipeline.trace w')
      = Pipeline.callback_calls (Pipeline.trace w)
    ∧ last (Pipeline.trace w')
      = Some (Pipeline.EvStderr (Pipeline.ErrProcessing x))
    ∧ Queue.items (Pipeline.audio_queue w') = rest
    ∧ Pipeline.worker_alive w' = true
    ∧ (∀ next rest',
          rest = next :: rest' →
          ∃ tr, Pipeline.trace (Pipeline.worker_step C w')
                = Pipeline.trace w' ++ Pipeline.EvInsert next :: tr).
Proof.
  intros frame engine C e0 c0 l chunk rest x w Hi Hx w'.
  assert (H5 : (0 < Pipeline.queue_capacity)%Z) by done.
  assert (Hb : Pipeline.balanced w).
  { by destruct (run_invariant C _ e0 c0 l H5) as (_ & Hb & _). }
  assert (Hrun : Pipeline.running w = true).
  { apply (run_running C Pipeline.queue_capacity e0 c0 l). }
  destruct (worker_iteration_some C w chunk rest Hi Hb)
    as (Hi1 & _ & Hb1 & Hr1 & _).
  destruct (worker_iteration_raises C w chunk rest x Hi Hb Hx)
    as (e & tr & Hw & Hcalls).
  subst w'. rewrite (worker_step_some C w chunk rest) by done.
  split_and!.
  - by rewrite Hw.
  - by rewrite Hw.
  - rewrite Hw. cbn [Pipeline.trace].
    change (Pipeline.EvInsert chunk
              :: tr ++ [Pipeline.EvStderr (Pipeline.ErrProcessing x)])
      with ([Pipeline.EvInsert chunk]
              ++ tr ++ [Pipeline.EvStderr (Pipeline.ErrProcessing x)]).
    rewrite !callback_calls_app, Hcalls. cbn. by rewrite app_nil_r.
  - rewrite Hw. cbn [Pipeline.trace].
    rewrite app_comm_cons, app_assoc. apply last_snoc.
  - exact Hi1.
  - unfold Pipeline.worker_alive. by rewrite Hr1, Hrun.
  - intros next rest' ->.
    rewrite (worker_step_some C _ next rest') by done.
    destruct (worker_iteration_some C _ next rest' Hi1 Hb1)
      as (_ & _ & _ & _ & tr' & Ht' & _).
    by exists tr'.
Qed.

(** The scripted engine raises on chunk 0: with chunks 0 and 1 queued, the
    worker's turn on chunk 0 leaves the transcript empty and chunk 1 in the
    queue. *)
Lemma engine_error_skips_frame_witness :
  let C := Pipeline.scripted_config [] in
  let w := Pipeline.run C (Pipeline.start [] (Accumulator.fresh ∅))
             [Pipeline.Capture None 0%nat; Pipeline.Capture None 1%nat] in
  full_transcript (Pipeline.cb (Pipeline.worker_step C w))
  = full_transcript (Pipeline.cb w)
  ∧ Queue.items (Pipeline.audio_queue (Pipeline.worker_step C w)) = [1%nat].
Proof.
  intros C w.
  destruct (engine_error_skips_frame C [] (Accumulator.fresh ∅)
              [Pipeline.Capture None 0%nat; Pipeline.Capture None 1%nat]
              0%nat [1%nat] "bad chunk"%string)
    as (_ & Ht & _ & _ & Hq & _).
  - reflexivity.
  - left. reflexivity.
  - split; [exact Ht | exact Hq].
Defined.

(** ** Shutdown *)

Section ShutdownFacts.
Import Accumulator.

Lemma broadcast_broadcasts E now t s :
  broadcasts (Hub.broadcast_full_transcript E now t s) = broadcasts s ++ [t].
Proof.
  destruct (decide (connections s = ∅)) as [He|Hne].
  - by rewrite broadcast_empty.
  - by rewrite broadcast_unfold.
Qed.






End ShutdownFacts.




(** * Further properties *)

(** ** The transcript in closed form *)

Section TranscriptFacts.
Import Accumulator Transcript.

Lemma join_snoc sep (l : list str) x :
  PyJoin.join sep (l ++ [x])
  = match l with
    | [] => x
    | _ :: _ => PyJoin.join sep l ++ sep ++ x
    end.
Proof.
  induction l as [|y l IH]; [done|].
  cbn [app PyJoin.join]. rewrite IH.
  destruct l as [|z l]; [done|].
  cbn [app]. by rewrite <- !app_assoc.
Qed.

Lemma kept_text_good sp t : kept_text sp = Some t → t ≠ [] ∧ trimmed t.
Proof.
  unfold kept_text. destruct (new_text_of (text sp)) as [[|c r]|e] eqn:Hn;
    intros [= <-]. split; [done|]. by eapply new_text_trimmed.
Qed.

Lemma join_good (l : list str) :
  Forall (λ t, t ≠ [] ∧ trimmed t) l →
  trimmed (PyJoin.join (lit " ") l) ∧ (l ≠ [] → PyJoin.join (lit " ") l ≠ []).
Proof.
  induction 1 as [|x l [Hx Hxt] Hl [IHt IHn]]; [done|].
  cbn [PyJoin.join]. destruct l as [|y l]; [done|].
  split.
  - apply strip_join; try done. by apply IHn.
  - intros _. destruct x; [done|]. done.
Qed.

Lemma next_transcript_kept full sp :
  next_transcript full (text sp)
  = match kept_text sp with
    | Some t => if truthy full then strip (full ++ lit " " ++ t) else t
    | None => full
    end.
Proof.
  unfold next_transcript, kept_text.
  by destruct (new_text_of (text sp)) as [[|c r]|e].
Qed.

Lemma kept_texts_cons sp sps :
  kept_texts (sp :: sps)
  = match kept_text sp with
    | Some t => t :: kept_texts sps
    | None => kept_texts sps
    end.
Proof. reflexivity. Qed.

Lemma foldl_next_join (ks : list str) sps :
  Forall (λ t, t ≠ [] ∧ trimmed t) ks →
  foldl (λ full sp, next_transcript full (text sp))
    (PyJoin.join (lit " ") ks) sps
  = PyJoin.join (lit " ") (ks ++ kept_texts sps).
Proof.
  revert ks. induction sps as [|sp sps IH]; intros ks Hks.
  - cbn. by rewrite app_nil_r.
  - cbn [foldl]. rewrite next_transcript_kept, kept_texts_cons.
    destruct (kept_text sp) as [t|] eqn:Hk; [|by apply IH].
    destruct (kept_text_good sp t Hk) as [Ht Htt].
    assert (Hks' : Forall (λ t, t ≠ [] ∧ trimmed t) (ks ++ [t])).
    { apply Forall_app. split; [done|]. by constructor. }
    replace (if truthy (PyJoin.join (lit " ") ks)
             then strip (PyJoin.join (lit " ") ks ++ lit " " ++ t) else t)
      with (PyJoin.join (lit " ") (ks ++ [t])).
    + rewrite (IH _ Hks'). by rewrite <- app_assoc.
    + rewrite join_snoc. destruct (join_good ks Hks) as [Hjt Hjn].
      destruct ks as [|k ks]; [done|].
      assert (Hne : PyJoin.join (lit " ") (k :: ks) ≠ []) by by apply Hjn.
      apply truthy_true in Hne as Htr. rewrite Htr.
      symmetry. by apply strip_join.
Qed.

Lemma fold_none E s sp : kept_text sp = None → fold E s sp = s.
Proof.
  unfold fold, transcript_callback, kept_text.
  by destruct (new_text_of (text sp)) as [[|c r]|e].
Qed.

(** A fold that keeps a text: the globals are updated, then the transcript
    is broadcast, unless the loop found does not run. *)
Lemma fold_some E s sp t :
  kept_text sp = Some t →
  ∃ s2,
    fold E s sp
    = match loop E with
      | LoopNotRunning => s2
      | _ => Hub.broadcast_full_transcript E (loop_time E (update_count s2))
               (full_transcript s2) s2
      end
    ∧ update_count s2 = update_count s + 1
    ∧ connections s2 = connections s ∧ broadcasts s2 = broadcasts s
    ∧ attempts s2 = attempts s ∧ sent s2 = sent s
    ∧ stdout s2
      = stdout s
        ++ (if truthy (full_transcript s) then []
            else [LogInitialized (length t)])
        ++ (if (update_count s + 1) mod 10 =? 0
            then [LogUpdate (update_count s + 1) (length (full_transcript s2))]
            else []).
Proof.
  unfold fold, transcript_callback, kept_text.
  destruct (new_text_of (text sp)) as [[|c r]|e]; try discriminate.
  intros [= <-]. cbn [truthy negb].
  set (s1 := if truthy (full_transcript s) then _ else _).
  set (s1' := set_update_count _ s1).
  set (s2 := if update_count s1' mod 10 =? 0 then _ else s1').
  assert (H1 : update_count s1 = update_count s ∧ connections s1 = connections s
               ∧ broadcasts s1 = broadcasts s ∧ attempts s1 = attempts s
               ∧ sent s1 = sent s
               ∧ stdout s1
                 = stdout s ++ (if truthy (full_transcript s) then []
                                else [LogInitialized (length (c :: r))])).
  { subst s1. destruct (truthy (full_transcript s)); cbn;
      rewrite ?app_nil_r; done. }
  destruct H1 as (Hu1 & Hc1 & Hb1 & Ha1 & Hs1 & Ho1).
  assert (Hu1' : update_count s1' = update_count s + 1).
  { subst s1'. cbn. by rewrite Hu1. }
  exists s2. split.
  { destruct (loop E); done. }
  subst s2. rewrite Hu1'.
  destruct (_ =? 0); cbn; rewrite ?Hu1, ?Hc1, ?Hb1, ?Ha1, ?Hs1, ?Ho1,
    ?app_nil_r, <- ?app_assoc; done.
Qed.

Lemma kept_texts_snoc sps sp :
  kept_texts (sps ++ [sp])
  = kept_texts sps ++ match kept_text sp with Some t => [t] | None => [] end.
Proof.
  unfold kept_texts. rewrite omap_app. cbn. by destruct (kept_text sp).
Qed.

Lemma fold_all_step E s sps sp :
  fold_all E s (sps ++ [sp]) = fold E (fold_all E s sps) sp.
Proof. unfold fold_all. by rewrite foldl_app. Qed.

Lemma transcript_join E conns sps :
  full_transcript (fold_all E (fresh conns) sps)
  = PyJoin.join (lit " ") (kept_texts sps).
Proof.
  rewrite fold_all_transcript.
  apply (foldl_next_join [] sps). constructor.
Qed.

Lemma successive_snoc kept t :
  successive (kept ++ [t])
  = successive kept ++ [PyJoin.join (lit " ") (kept ++ [t])].
Proof.
  unfold successive. rewrite length_app. cbn [length].
  rewrite Nat.add_1_r, seq_S, fmap_app. cbn [fmap list_fmap Nat.add].
  f_equal.
  - apply list_fmap_ext. intros i k Hk.
    apply lookup_seq in Hk as [-> Hlt]. cbn [Nat.add].
    by rewrite take_app_le by lia.
  - rewrite take_ge; [done|]. rewrite length_app. cbn. lia.
Qed.

End TranscriptFacts.

Section TranscriptRuns.
Import Accumulator Transcript.

Lemma broadcast_stdout E now t s :
  stdout (Hub.broadcast_full_transcript E now t s) = stdout s
  ∧ sent (Hub.broadcast_full_transcript E now t s) = sent s.
Proof.
  destruct (decide (connections s = ∅)) as [He|Hne].
  - by rewrite broadcast_empty.
  - by rewrite broadcast_unfold.
Qed.

Lemma fold_update_count E s sp :
  update_count (fold E s sp)
  = update_count s + match kept_text sp with Some _ => 1 | None => 0 end.
Proof.
  destruct (kept_text sp) as [t|] eqn:Hk.
  - destruct (fold_some E s sp t Hk) as (s2 & -> & Hu & _).
    destruct (loop E);
      rewrite ?(proj2 (broadcast_full_transcript_globals _ _ _ _)); done.
  - rewrite fold_none by done. lia.
Qed.

Lemma fold_broadcasts E s sp :
  loop E ≠ LoopNotRunning →
  broadcasts (fold E s sp)
  = broadcasts s
    ++ match kept_text sp with
       | Some _ => [full_transcript (fold E s sp)]
       | None => []
       end.
Proof.
  intros Hloop. destruct (kept_text sp) as [t|] eqn:Hk.
  - destruct (fold_some E s sp t Hk) as (s2 & -> & _ & _ & Hb & _).
    destruct (loop E); [| |done];
      rewrite broadcast_broadcasts,
        (proj1 (broadcast_full_transcript_globals _ _ _ _)), Hb; done.
  - rewrite fold_none by done. by rewrite app_nil_r.
Qed.

Lemma fold_idle E s sp :
  loop E = LoopNotRunning →
  broadcasts (fold E s sp) = broadcasts s
  ∧ attempts (fold E s sp) = attempts s
  ∧ connections (fold E s sp) = connections s
  ∧ sent (fold E s sp) = sent s.
Proof.
  intros Hloop. destruct (kept_text sp) as [t|] eqn:Hk.
  - destruct (fold_some E s sp t Hk) as (s2 & -> & _ & Hc & Hb & Ha & Hs & _).
    by rewrite Hloop.
  - by rewrite fold_none.
Qed.

Lemma fold_stdout E s sp :
  stdout (fold E s sp)
  = stdout s
    ++ match kept_text sp with
       | Some t =>
           (if truthy (full_transcript s) then []
            else [LogInitialized (length t)])
           ++ (if (update_count s + 1) mod 10 =? 0
               then [LogUpdate (update_count s + 1)
                       (length (full_transcript (fold E s sp)))]
               else [])
       | None => []
       end.
Proof.
  destruct (kept_text sp) as [t|] eqn:Hk.
  - destruct (fold_some E s sp t Hk) as (s2 & Hf & _ & _ & _ & _ & _ & Ho).
    rewrite Hf.
    destruct (loop E);
      rewrite ?(proj1 (broadcast_stdout _ _ _ _)),
        ?(proj1 (broadcast_full_transcript_globals _ _ _ _)); done.
  - rewrite fold_none by done. by rewrite app_nil_r.
Qed.

Lemma div10_succ (n : N) :
  (n + 1) / 10 = n / 10 + (if (n + 1) mod 10 =? 0 then 1 else 0).
Proof.
  pose proof (N.Div0.div_mod n 10) as Hn.
  pose proof (N.Div0.div_mod (n + 1) 10) as Hn1.
  assert (Hlt : n mod 10 < 10) by (apply N.mod_lt; lia).
  assert (Hlt1 : (n + 1) mod 10 < 10) by (apply N.mod_lt; lia).
  destruct (N.eqb_spec ((n + 1) mod 10) 0);
    generalize dependent (n / 10); generalize dependent ((n + 1) / 10);
    generalize dependent (n mod 10); generalize dependent ((n + 1) mod 10);
    intros; lia.
Qed.

End TranscriptRuns.

(** X1.  The transcript after folding any sequence of spans into a fresh
    accumulator is the stripped texts of the spans that are not blank,
    joined by single spaces, in order. *)
Theorem transcript_is_join_of_kept_texts :
  ∀ E conns sps,
    Accumulator.transcript_of E conns sps
    = PyJoin.join (lit " ") (Transcript.kept_texts sps).
Proof. intros E conns sps. apply transcript_join. Qed.

(** X2.  The update counter counts the folds that added a text: after
    any sequence of spans folded into a fresh accumulator it is the number
    of spans whose text is not blank. *)
Theorem update_count_counts_kept_texts :
  ∀ E conns sps,
    update_count (Accumulator.fold_all E (Accumulator.fresh conns) sps)
    = N.of_nat (length (Transcript.kept_texts sps)).
Proof.
  intros E conns sps. induction sps as [|sp sps IH] using rev_ind; [done|].
  rewrite fold_all_step, fold_update_count, IH, kept_texts_snoc, length_app.
  destruct (Transcript.kept_text sp); cbn [length]; lia.
Qed.

(** X3.  When the callback reaches the broadcast, the broadcasts made
    while a sequence of spans is folded are, in order, the whole transcript
    after each span that added a text: one broadcast per such span, none
    for a blank span, each carrying everything kept so far. *)
Theorem broadcasts_are_successive_transcripts :
  ∀ E conns sps,
    loop E ≠ LoopNotRunning →
    broadcasts (Accumulator.fold_all E (Accumulator.fresh conns) sps)
    = Transcript.successive (Transcript.kept_texts sps).
Proof.
  intros E conns sps Hloop.
  induction sps as [|sp sps IH] using rev_ind; [done|].
  rewrite fold_all_step, fold_broadcasts by done.
  rewrite <- fold_all_step, transcript_join, IH, kept_texts_snoc.
  destruct (Transcript.kept_text sp) as [t|].
  - by rewrite successive_snoc.
  - by rewrite !app_nil_r.
Qed.

Lemma broadcasts_are_successive_transcripts_witness :
  broadcasts
    (Accumulator.fold_all Pipeline.quiet_env (Accumulator.fresh ∅)
       [Accumulator.span_of "Hello"; Accumulator.span_of "  ";
        Accumulator.span_of "world"])
  = [lit "Hello"; lit "Hello world"].
Proof.
  assert (Hloop : loop Pipeline.quiet_env ≠ LoopNotRunning) by discriminate.
  exact (broadcasts_are_successive_transcripts Pipeline.quiet_env ∅
           [Accumulator.span_of "Hello"; Accumulator.span_of "  ";
            Accumulator.span_of "world"] Hloop).
Defined.

(** X4.  When the event loop found in the calling thread does not run, the
    transcript is accumulated all the same but nothing is broadcast: no
    call of the broadcast, no send, and the set of subscribers is as it
    was. *)
Theorem idle_loop_accumulates_silently :
  ∀ E conns sps,
    loop E = LoopNotRunning →
    let s := Accumulator.fold_all E (Accumulator.fresh conns) sps in
    full_transcript s = PyJoin.join (lit " ") (Transcript.kept_texts sps)
    ∧ broadcasts s = [] ∧ attempts s = [] ∧ connections s = conns.
Proof.
  intros E conns sps Hloop. cbv zeta. split; [apply transcript_join|].
  induction sps as [|sp sps IH] using rev_ind; [done|].
  rewrite fold_all_step.
  destruct (fold_idle E (Accumulator.fold_all E (Accumulator.fresh conns) sps)
              sp Hloop) as (-> & -> & -> & _).
  exact IH.
Qed.

Lemma idle_loop_accumulates_silently_witness :
  let E := Env LoopNotRunning (λ _, false) (λ _ _ _, SendDone)
             (λ _, PyFloat 0 0) in
  let s := Accumulator.fold_all E (Accumulator.fresh {[1%positive]})
             [Accumulator.span_of "Hello"; Accumulator.span_of "world"] in
  full_transcript s = lit "Hello world" ∧ broadcasts s = [].
Proof.
  intros E s.
  destruct (idle_loop_accumulates_silently E {[1%positive]}
              [Accumulator.span_of "Hello"; Accumulator.span_of "world"]
              eq_refl) as (Ht & Hb & _).
  split; [exact Ht | exact Hb].
Defined.

(** X5.  The lines the accumulator prints: the line that announces the
    first text appears once when some text was kept and never otherwise,
    and the progress line appears once for every tenth update. *)
Theorem accumulator_log_lines :
  ∀ E conns sps,
    let s := Accumulator.fold_all E (Accumulator.fresh conns) sps in
    length (List.filter Transcript.is_initialized (stdout s))
    = match Transcript.kept_texts sps with [] => 0 | _ :: _ => 1 end%nat
    ∧ N.of_nat (length (List.filter Transcript.is_update (stdout s)))
      = update_count s / 10.
Proof.
  intros E conns sps. cbv zeta.
  induction sps as [|sp sps IH] using rev_ind; [done|].
  destruct IH as [IHi IHu].
  rewrite fold_all_step, fold_stdout, fold_update_count, kept_texts_snoc.
  rewrite transcript_join.
  destruct (Transcript.kept_text sp) as [t|] eqn:Hk.
  - rewrite !List.filter_app, !length_app, IHi, Nat2N.inj_add, IHu.
    rewrite div10_succ. split.
    + destruct (Transcript.kept_texts sps) as [|k ks] eqn:Hks.
      * cbn [PyJoin.join truthy app].
        destruct (_ =? 0); cbn; lia.
      * assert (Hgood : Forall (λ t, t ≠ [] ∧ trimmed t) (k :: ks)).
        { rewrite <- Hks. unfold Transcript.kept_texts.
          apply Forall_forall. intros x Hx.
          apply list_elem_of_omap in Hx as (sp' & _ & Hsp').
          by eapply kept_text_good. }
        destruct (join_good _ Hgood) as [_ Hne].
        assert (Htr : truthy (PyJoin.join (lit " ") (k :: ks)) = true).
        { apply truthy_true. by apply Hne. }
        rewrite Htr. destruct (_ =? 0); cbn; lia.
    + destruct (truthy _), (_ =? 0); cbn; lia.
  - rewrite !app_nil_r, N.add_0_r. done.
Qed.

(** ** Sessions *)

Section SessionFacts.
Import Session SessionLog.

(** The loop over the received messages only adds pongs to the sends. *)
Lemma message_loop_effect ws msgs ending s :
  ∃ k, (k ≤ pings msgs)%nat
       ∧ (message_loop ws msgs ending s).1
         = Server (connections s) (full_transcript s) (update_count s)
             (stdout s) (broadcasts s) (attempts s)
             (sent s ++ replicate k (ws, pong)).
Proof.
  assert (Hstop : ∀ (p : nat) (s : server),
             ∃ k, (k ≤ p)%nat
                  ∧ s = Server (connections s) (full_transcript s)
                          (update_count s) (stdout s) (broadcasts s)
                          (attempts s) (sent s ++ replicate k (ws, pong))).
  { intros p s0. exists 0%nat. split; [lia|]. destruct s0. cbn.
    by rewrite app_nil_r. }
  revert s. induction msgs as [|[m r] msgs IH]; intros s.
  - apply Hstop.
  - cbn [message_loop].
    assert (Hp : pings ((m, r) :: msgs)
                 = ((if is_ping m then 1 else 0) + pings msgs)%nat).
    { unfold pings. cbn [List.filter fst]. by destruct (is_ping m). }
    rewrite Hp. clear Hp.
    destruct m as [|e|v]; cbn [handle_message is_ping fst].
    + apply IH.
    + apply Hstop.
    + destruct v as [| | | | | |d]; cbn [fst]; try apply Hstop.
      destruct (eq_str _ _); [|apply IH].
      unfold send. destruct r; cbn [fst].
      * destruct (IH (log_sent ws pong s)) as (k & Hk & Hl).
        exists (S k). split; [lia|].
        rewrite Hl. cbn. by rewrite <- app_assoc.
      * exists 1%nat. split; [lia|]. by destruct s.
      * exists 1%nat. split; [lia|]. by destruct s.
Qed.



End SessionFacts.

(** X6.  Whatever a session receives and however its sends go, when
    [handle_client] ends the connection is out of the set of subscribers
    and the other subscribers are as before; the transcript, the update
    counter and the broadcast record are untouched; the handler has sent
    the greeting first and after it only pongs, at most one for each ping
    received; and the last line printed reports the disconnection. *)
Theorem session_always_unregisters :
  ∀ ws greeting msgs ending s,
    let s' := Session.handle_client ws greeting msgs ending s in
    connections s' = connections s ∖ {[ws]}
    ∧ full_transcript s' = full_transcript s
    ∧ update_count s' = update_count s
    ∧ broadcasts s' = broadcasts s
    ∧ attempts s' = attempts s
    ∧ (∃ k, (k ≤ SessionLog.pings msgs)%nat
            ∧ sent s' = sent s
                        ++ (ws, Session.welcome)
                           :: replicate k (ws, Session.pong))
    ∧ last (stdout s')
      = Some (LogDisconnected (size (connections s ∖ {[ws]}))).
Proof.
  intros ws greeting msgs ending s. cbv zeta.
  unfold Session.handle_client, Session.send.
  set (s0 := log_sent ws Session.welcome (Hub.register ws s)).
  assert (Hloop : ∃ k v s1,
             (k ≤ SessionLog.pings msgs)%nat
             ∧ match greeting with
               | Session.SendReturns =>
                   Session.message_loop ws msgs ending s0
               | Session.SendRaisesClosed => (s0, Session.Closed)
               | Session.SendRaises e => (s0, Session.Crashed e)
               end = (s1, v)
             ∧ s1 = Server (connections s0) (full_transcript s0)
                      (update_count s0) (stdout s0) (broadcasts s0)
                      (attempts s0) (sent s0 ++ replicate k (ws, Session.pong))).
  { destruct greeting.
    - destruct (message_loop_effect ws msgs ending s0) as (k & Hk & Hl).
      destruct (Session.message_loop ws msgs ending s0) as [s1 v].
      exists k, v, s1. by split_and!.
    - exists 0%nat, Session.Closed, s0. split_and!; [lia|done|].
      destruct s. cbn. by rewrite app_nil_r.
    - exists 0%nat, (Session.Crashed e), s0. split_and!; [lia|done|].
      destruct s. cbn. by rewrite app_nil_r. }
  destruct Hloop as (k & v & s1 & Hk & Hl & Hs1).
  assert (Hl' : match Session.send ws Session.welcome greeting
                        (Hub.register ws s) with
                | (s, Session.Continue) =>
                    Session.message_loop ws msgs ending s
                | stop => stop
                end = (s1, v)).
  { unfold Session.send. fold s0. by destruct greeting. }
  unfold Session.send in Hl'. fold s0 in Hl'. rewrite Hl'.
  subst s1 s0. unfold Hub.unregister, Hub.register.
  destruct s as [conns ft uc out bc att snt].
  assert (Hset : ({[ws]} ∪ conns) ∖ {[ws]} = conns ∖ {[ws]}) by set_solver.
  destruct v; cbn; rewrite Hset; split_and!; try done;
    try (exists k; split; [done|]; by rewrite <- app_assoc);
    rewrite ?app_assoc; by rewrite last_snoc.
Qed.




(** X25.  On an open session, a received object whose [type] is "ping"
    makes the handler send exactly one message, the pong, on that session
    and change nothing else; the reply is the same whatever the transcript
    and the other globals are, and the session stays open when the send
    returns.  A received object with any other [type] (or none) is
    accepted: nothing is sent, the state is unchanged and the session stays
    open. *)
Theorem ping_elicits_one_pong :
  (∀ ws d r s,
      dict_get d (lit "type") = Some (PStr (lit "ping")) →
      (Session.handle_message ws (Session.Decoded (PDict d)) r s).1
      = log_sent ws Session.pong s
      ∧ sent (Session.handle_message ws (Session.Decoded (PDict d)) r s).1
        = sent s ++ [(ws, PDict [(lit "type", PStr (lit "pong"))])]
      ∧ full_transcript
          (Session.handle_message ws (Session.Decoded (PDict d)) r s).1
        = full_transcript s
      ∧ (Session.handle_message ws (Session.Decoded (PDict d))
           Session.SendReturns s).2 = Session.Continue)
  ∧ (∀ ws d r s,
        dict_get d (lit "type") ≠ Some (PStr (lit "ping")) →
        Session.handle_message ws (Session.Decoded (PDict d)) r s
        = (s, Session.Continue)).
Proof.
  split.
  - intros ws d r s Hd. apply eq_str_true in Hd.
    unfold Session.handle_message. rewrite Hd. done.
  - intros ws d r s Hd. unfold Session.handle_message.
    destruct (eq_str _ _) eqn:He; [|done].
    by apply eq_str_true in He.
Qed.

Lemma ping_elicits_one_pong_witness :
  sent (Session.handle_message 1%positive
          (Session.Decoded (PDict [(lit "type", PStr (lit "ping"))]))
          Session.SendReturns
          (Accumulator.fresh {[1%positive]})).1
  = [(1%positive, Session.pong)]
  ∧ Session.handle_message 1%positive
      (Session.Decoded (PDict [(lit "type", PStr (lit "hello"))]))
      Session.SendReturns (Accumulator.fresh {[1%positive]})
    = (Accumulator.fresh {[1%positive]}, Session.Continue).
Proof.
  split.
  - exact (proj1 (proj2 (proj1 ping_elicits_one_pong 1%positive
                           [(lit "type", PStr (lit "ping"))]
                           Session.SendReturns
                           (Accumulator.fresh {[1%positive]})
                           eq_refl))).
  - apply (proj2 ping_elicits_one_pong). vm_compute. discriminate.
Defined.

(** ** The broadcast of single segments, the client and the collector *)

Section LegacyFacts.
Import Hub Legacy.



End LegacyFacts.


(** X10.  The test client against the server's messages: the greeting is
    shown; a broadcast of the full transcript is printed with that
    transcript as text and zero for both times, which the message does not
    carry; a segment message is printed with its own times when both can
    be formatted with [:.2f] and makes the client's loop raise the
    formatting's exception when one cannot, as with a start time that is
    an [int] too large for a float; a pong is taken silently; and the
    keepalive the client sends is answered by the server with exactly one
    pong. *)
Theorem client_understands_server :
  Client.on_first Session.welcome
  = Return [Client.ServerSays (PStr (lit "Connected to transcription server"))]
  ∧ (∀ t now,
        Client.on_message (Hub.full_message t now)
        = Return [Client.TranscriptLine (PInt 0) (PInt 0) (PStr t)])
  ∧ (∀ st et tx now,
        Client.on_message (Legacy.segment_message st et tx now)
        = match Pipeline.format_span st et with
          | Return _ => Return [Client.TranscriptLine st et tx]
          | Raise e => Raise e
          end)
  ∧ (∀ z et tx now,
        (Pipeline.float_overflow ≤ Z.abs z)%Z →
        Client.on_message (Legacy.segment_message (PInt z) et tx now)
        = Raise "OverflowError"%string)
  ∧ Client.on_message Session.pong = Return []
  ∧ (∀ ws s,
        Session.handle_message ws (Session.Decoded Client.ping)
          Session.SendReturns s
        = (log_sent ws Session.pong s, Session.Continue)).
Proof.
  split_and!; try reflexivity.
  intros z et tx now Hz.
  change (Client.on_message (Legacy.segment_message (PInt z) et tx now))
    with (match Pipeline.format_span (PInt z) et with
          | Return _ => Return [Client.TranscriptLine (PInt z) et tx]
          | Raise e => Raise e
          end).
  unfold Pipeline.format_span, Pipeline.format_2f.
  by destruct (Z.ltb_spec (Z.abs z) Pipeline.float_overflow); [lia|].
Qed.

(** A segment whose start time is [2^1024] makes the client raise. *)
Lemma client_understands_server_witness :
  Client.on_message
    (Legacy.segment_message (PInt (2 ^ 1024)) (PInt 1) (PStr (lit "word"))
       (PyFloat 0 0))
  = Raise "OverflowError"%string.
Proof.
  apply (proj1 (proj2 (proj2 (proj2 client_understands_server)))).
  vm_compute. discriminate.
Defined.

Section CollectorFacts.
Import Collector.

Lemma collect_all sps : collect sps = sps.
Proof.
  unfold collect.
  assert (H : ∀ c, foldl (λ c sp, handle_transcript (start_time sp)
                                    (end_time sp) (text sp) c) c sps
                   = c ++ sps).
  { induction sps as [|[st et tx] sps IH]; intros c.
    - by rewrite app_nil_r.
    - cbn [foldl]. rewrite IH. unfold handle_transcript. cbn.
      by rewrite <- app_assoc. }
  apply (H []).
Qed.

Lemma texts_clean sps :
  Forall (λ sp, ∃ t, text sp = PStr t ∧ t ≠ [] ∧ trimmed t) sps →
  texts sps = Some (Transcript.kept_texts sps).
Proof.
  induction 1 as [|sp sps (t & Ht & Hne & Htr) _ IH]; [done|].
  cbn [texts]. rewrite Ht, IH, kept_texts_cons.
  unfold Transcript.kept_text, Accumulator.new_text_of. rewrite Ht.
  cbn [py_truthy]. apply truthy_true in Hne as Htrue. rewrite Htrue.
  unfold trimmed in Htr. rewrite Htr. by destruct t.
Qed.

Lemma texts_not_string sps :
  (∃ sp, sp ∈ sps ∧ ∀ t, text sp ≠ PStr t) → texts sps = None.
Proof.
  intros (sp & Hin & Hsp). induction sps as [|sp' sps IH].
  - by apply elem_of_nil in Hin.
  - cbn [texts]. apply elem_of_cons in Hin as [<-|Hin].
    + destruct (text sp) eqn:Ht; try done. by destruct (Hsp s).
    + rewrite IH by done. by destruct (text sp').
Qed.

End CollectorFacts.

(** X11.  The collector of the integration examples keeps one record per
    call, in order.  When every span's text is a string that is not empty
    and has no whitespace at its ends, the collector's full text is the
    server's transcript of the same spans; and when some text is not a
    string, which the server's accumulator ignores or refuses, joining the
    collected texts raises. *)
Theorem collector_matches_transcript :
  ∀ E conns sps,
    Collector.collect sps = sps
    ∧ (Forall (λ sp, ∃ t, text sp = PStr t ∧ t ≠ [] ∧ trimmed t) sps →
       Collector.get_full_text (Collector.collect sps)
       = Return (Accumulator.transcript_of E conns sps))
    ∧ ((∃ sp, sp ∈ sps ∧ ∀ t, text sp ≠ PStr t) →
       Collector.get_full_text (Collector.collect sps)
       = Raise "TypeError"%string).
Proof.
  intros E conns sps. rewrite collect_all. split_and!; [done| |].
  - intros Hclean. unfold Collector.get_full_text.
    rewrite texts_clean by done.
    unfold Accumulator.transcript_of. by rewrite transcript_join.
  - intros Hbad. unfold Collector.get_full_text.
    by rewrite texts_not_string.
Qed.

Lemma collector_matches_transcript_witness :
  Collector.get_full_text
    (Collector.collect [Accumulator.span_of "Hello"; Accumulator.span_of "world"])
  = Return (Accumulator.transcript_of Pipeline.quiet_env ∅
              [Accumulator.span_of "Hello"; Accumulator.span_of "world"])
  ∧ Collector.get_full_text
      (Collector.collect [Accumulator.span_of "Hello"; Span PNone PNone PNone])
    = Raise "TypeError"%string.
Proof.
  split.
  - apply (proj1 (proj2 (collector_matches_transcript Pipeline.quiet_env ∅
                           [Accumulator.span_of "Hello";
                            Accumulator.span_of "world"]))).
    apply Forall_cons. split.
    { exists (lit "Hello"). split; [reflexivity|].
      split; [discriminate | reflexivity]. }
    apply Forall_cons. split; [|by apply Forall_nil].
    exists (lit "world"). split; [reflexivity|].
    split; [discriminate | reflexivity].
  - apply (proj2 (proj2 (collector_matches_transcript Pipeline.quiet_env ∅
                           [Accumulator.span_of "Hello";
                            Span PNone PNone PNone]))).
    exists (Span PNone PNone PNone). split; [set_solver|done].
Defined.

(** ** Whole runs of the pipeline *)

Section RunInduction.
Import Pipeline.
Context {frame engine cbstate : Type}.
Variable C : config frame engine cbstate.
Variable P : state frame engine cbstate → Prop.
Hypothesis P_queue : ∀ w q, P w → P (set_queue q w).
Hypothesis P_eng : ∀ w e, P w → P (set_eng e w).
Hypothesis P_running : ∀ w b, P w → P (set_running b w).
Hypothesis P_log : ∀ w ev, Runs.neutral ev → P w → P (log ev w).
Hypothesis P_result :
  ∀ r w, P w → py_truthy (text r) = true → P (handle_result C r w).1.
Hypothesis P_final :
  ∀ r w, P w → py_truthy (text r) = true → P (handle_final C r w).

Lemma P_process_chunk chunk w : P w → P (process_chunk C chunk w).
Proof.
  intros Hw. unfold process_chunk, try_chunk.
  destruct (insert_audio_chunk _ _ _) as [e1 [?|x]].
  2:{ apply P_log; [done|]. apply P_log; [done|]. by apply P_eng. }
  cbn [log set_eng eng].
  destruct (process_iter _ _) as [e2 [r|x]].
  2:{ apply P_log; [done|]. apply P_log; [done|]. apply P_eng.
      apply P_log; [done|]. by apply P_eng. }
  match goal with |- context [handle_result C r ?w0] =>
    assert (Hw0 : P w0)
      by (apply P_log; [done|]; apply P_eng; apply P_log; [done|];
          by apply P_eng);
    pose proof (P_result r w0 Hw0) as Hres;
    unfold handle_result in Hres |- *
  end.
  destruct (py_truthy (text r)); [|done].
  specialize (Hres eq_refl).
  destruct (write_span _ _ _) as [w1 [?|x]].
  - destruct (print_span _ _ _) as [w2 [?|x]]; cbn [fst] in Hres; [done|].
    by apply P_log.
  - cbn [fst] in Hres. by apply P_log.
Qed.

Lemma P_worker_step w : P w → P (worker_step C w).
Proof.
  intros Hw. unfold worker_step. destruct (worker_alive w); [|done].
  unfold worker_iteration. destruct (Queue.get _) as [[chunk q]|]; [|done].
  set (w1 := process_chunk C chunk (set_queue q w)).
  assert (Hw1 : P w1) by (apply P_process_chunk; by apply P_queue).
  destruct (Queue.task_done _); [by apply P_queue|].
  destruct (running w1); [by apply P_log | done].
Qed.

Lemma P_audio_callback status chunk w :
  P w → P (audio_callback status chunk w).1.
Proof.
  intros Hw. unfold audio_callback.
  set (w1 := match status with Some _ => _ | None => w end).
  assert (Hw1 : P w1) by (subst w1; destruct status; [by apply P_log|done]).
  destruct (running w1); cbn [negb]; [|done].
  destruct (Queue.put_nowait _ _); cbn [fst]; [by apply P_queue | done].
Qed.

Lemma P_run w l : P w → P (run C w l).
Proof.
  revert w. induction l as [|a l IH]; intros w Hw; [done|].
  cbn [run foldl]. apply IH. destruct a; cbn [act].
  - by apply P_audio_callback.
  - by apply P_worker_step.
Qed.

Lemma P_join fuel w w' : P w → join C fuel w = Some w' → P w'.
Proof.
  revert w. induction fuel as [|fuel IH]; intros w Hw; cbn [join];
    destruct (Queue.unfinished_tasks _); try by intros [= <-].
  apply IH. by apply P_worker_step.
Qed.

Lemma P_finish_phase w : P w → P (finish_phase C w).
Proof.
  intros Hw. unfold finish_phase. cbn [log eng].
  destruct (finish _ _) as [e [r|x]]; do 2 (apply P_log; [done|]).
  - set (w0 := log EvFinish _).
    assert (Hw0 : P w0)
      by (apply P_log; [done|]; apply P_eng; by apply P_log).
    pose proof (P_final r w0 Hw0) as Hfin. unfold handle_final in Hfin |- *.
    destruct (py_truthy (text r)); [by apply Hfin | done].
  - apply P_log; [done|]. apply P_log; [done|]. apply P_eng.
    by apply P_log.
Qed.

(** What holds at the start and is kept by every step holds after any
    run, and after the shutdown that follows it. *)
Lemma P_shutdown w l fuel w' :
  P w → shutdown C fuel (run C w l) = Some w' → P w'.
Proof.
  intros Hw. unfold shutdown, finalize.
  destruct (join C fuel _) as [w1|] eqn:Hj; [|discriminate].
  intros [= <-]. apply P_finish_phase. eapply P_join; [|exact Hj].
  unfold signal_handler. apply P_running. apply P_log; [done|].
  by apply P_run.
Qed.

End RunInduction.

Section ResultFacts.
Import Pipeline.
Context {frame engine cbstate : Type}.
Implicit Types (w : state frame engine cbstate).
Implicit Types (C : config frame engine cbstate).



Lemma neutral_silent (ev : event frame) :
  Runs.neutral ev →
  callback_calls [ev] = [] ∧ Runs.file_spans [ev] = []
  ∧ Runs.printed [ev] = [].
Proof. destruct ev as [| | | | [] | |]; done. Qed.

(** What the worker adds to the trace for a result with text. *)
Lemma handle_result_segment C r w :
  py_truthy (text r) = true →
  ∃ seg,
    trace (handle_result C r w).1 = trace w ++ seg
    ∧ callback_calls seg
      = match transcript_callback C with Some _ => [r] | None => [] end
    ∧ (output_file C = true → json_output C = true →
       Runs.file_spans seg = [r] ∧ Runs.printed seg = [])
    ∧ (transcript_callback C = None → cb (handle_result C r w).1 = cb w).
Proof.
  intros Ht. destruct r as [st et tx]. cbn [text] in Ht.
  unfold handle_result, call_callback, write_span, print_span.
  cbn [text start_time end_time]. rewrite Ht.
  destruct (transcript_callback C) as [f|];
    [destruct (f _ _ _ _) as [c' [?|x]]|];
    destruct (output_file C), (json_output C);
    cbn [negb orb fst log set_cb trace cb];
    destruct (format_span st et) as [?|y];
    cbn [negb orb fst log set_cb trace cb];
    rewrite <- ?app_assoc;
    (eexists; split;
     [first [reflexivity | symmetry; apply app_nil_r]|]);
    split_and!; try done; intros; try discriminate.
Qed.

(** What the shutdown adds to the trace for a final result with text. *)
Lemma handle_final_segment C r w :
  py_truthy (text r) = true →
  let r' := Span (or_zero (start_time r)) (or_zero (end_time r)) (text r) in
  ∃ seg,
    trace (handle_final C r w) = trace w ++ seg
    ∧ callback_calls seg
      = match transcript_callback C with Some _ => [r'] | None => [] end
    ∧ (output_file C = true → json_output C = true →
       Runs.file_spans seg = [r'] ∧ Runs.printed seg = [])
    ∧ (transcript_callback C = None → cb (handle_final C r w) = cb w).
Proof.
  intros Ht. destruct r as [st et tx]. cbn [text] in Ht.
  unfold handle_final, call_callback.
  cbn [text start_time end_time]. rewrite Ht.
  destruct (transcript_callback C) as [f|];
    [destruct (f _ _ _ _) as [c' [?|x]]|];
    destruct (output_file C), (json_output C);
    cbn [negb orb fst log set_cb trace cb];
    rewrite <- ?app_assoc;
    (eexists; split;
     [first [reflexivity | symmetry; apply app_nil_r]|]);
    split_and!; try done; intros; try discriminate.
Qed.

End ResultFacts.

(** X12.  The pipeline calls the transcript callback only with a text that
    is true: along any run, and through the shutdown that follows it, no
    call of the callback carries an empty text or [None]. *)
Theorem callback_only_gets_text :
  ∀ {frame engine cbstate : Type}
    (C : Pipeline.config frame engine cbstate) e c l,
    Forall (λ sp, py_truthy (text sp) = true)
      (Pipeline.callback_calls
         (Pipeline.trace (Pipeline.run C (Pipeline.start e c) l)))
    ∧ ∀ fuel w',
        Pipeline.shutdown C fuel (Pipeline.run C (Pipeline.start e c) l)
        = Some w' →
        Forall (λ sp, py_truthy (text sp) = true)
          (Pipeline.callback_calls (Pipeline.trace w')).
Proof.
  intros frame engine cbstate C e c l.
  set (P := λ w : Pipeline.state frame engine cbstate,
         Forall (λ sp, py_truthy (text sp) = true)
           (Pipeline.callback_calls (Pipeline.trace w))).
  assert (Hlog : ∀ w ev, Runs.neutral ev → P w → P (Pipeline.log ev w)).
  { intros w ev Hev Hw. unfold P. cbn [Pipeline.log Pipeline.trace].
    rewrite callback_calls_app, (proj1 (neutral_silent ev Hev)).
    by rewrite app_nil_r. }
  assert (Hres : ∀ r w, P w → py_truthy (text r) = true →
                        P (Pipeline.handle_result C r w).1).
  { intros r w Hw Hr.
    destruct (handle_result_segment C r w Hr) as (seg & Ht & Hc & _).
    unfold P. rewrite Ht, callback_calls_app, Hc. apply Forall_app.
    split; [done|]. destruct (Pipeline.transcript_callback C);
      repeat constructor. done. }
  assert (Hfin : ∀ r w, P w → py_truthy (text r) = true →
                        P (Pipeline.handle_final C r w)).
  { intros r w Hw Hr.
    destruct (handle_final_segment C r w Hr) as (seg & Ht & Hc & _).
    unfold P. rewrite Ht, callback_calls_app, Hc. apply Forall_app.
    split; [done|]. destruct (Pipeline.transcript_callback C);
      repeat constructor. done. }
  assert (H0 : P (Pipeline.start e c)) by constructor.
  split.
  - by apply (P_run C P).
  - intros fuel w' Hs. by apply (P_shutdown C P) in Hs.
Qed.

Lemma callback_only_gets_text_witness :
  ∃ w',
    Pipeline.shutdown (Pipeline.scripted_config (lit "bye")) 3%nat
      (Pipeline.run (Pipeline.scripted_config (lit "bye"))
         (Pipeline.start [] (Accumulator.fresh ∅))
         [Pipeline.Capture None 1%nat; Pipeline.Work;
          Pipeline.Capture None 0%nat])
    = Some w'
    ∧ Forall (λ sp, py_truthy (text sp) = true)
        (Pipeline.callback_calls (Pipeline.trace w')).
Proof.
  eexists. split; [vm_compute; reflexivity|].
  apply (proj2 (callback_only_gets_text
                  (Pipeline.scripted_config (lit "bye")) []
                  (Accumulator.fresh ∅)
                  [Pipeline.Capture None 1%nat; Pipeline.Work;
                   Pipeline.Capture None 0%nat]) 3%nat).
  vm_compute. reflexivity.
Defined.



(** X14.  Without a callback the pipeline never touches the callback's
    state and records no call: along any run and after the shutdown the
    state handed in at the start is still there. *)
Theorem no_callback_no_effect :
  ∀ {frame engine cbstate : Type}
    (C : Pipeline.config frame engine cbstate) e c l,
    Pipeline.transcript_callback C = None →
    let untouched (w : Pipeline.state frame engine cbstate) :=
      Pipeline.cb w = c
      ∧ Pipeline.callback_calls (Pipeline.trace w) = [] in
    untouched (Pipeline.run C (Pipeline.start e c) l)
    ∧ ∀ fuel w',
        Pipeline.shutdown C fuel (Pipeline.run C (Pipeline.start e c) l)
        = Some w' →
        untouched w'.
Proof.
  intros frame engine cbstate C e c l Hcb P.
  assert (Hlog : ∀ w ev, Runs.neutral ev → P w → P (Pipeline.log ev w)).
  { intros w ev Hev [Hw1 Hw2]. unfold P.
    cbn [Pipeline.log Pipeline.trace Pipeline.cb].
    rewrite callback_calls_app, (proj1 (neutral_silent ev Hev)), Hw2.
    done. }
  assert (Hres : ∀ r w, P w → py_truthy (text r) = true →
                        P (Pipeline.handle_result C r w).1).
  { intros r w [Hw1 Hw2] Hr.
    destruct (handle_result_segment C r w Hr) as (seg & Ht & Hc & _ & Hn).
    unfold P. rewrite Ht, callback_calls_app, Hc, Hcb, Hw2, (Hn Hcb). done. }
  assert (Hfin : ∀ r w, P w → py_truthy (text r) = true →
                        P (Pipeline.handle_final C r w)).
  { intros r w [Hw1 Hw2] Hr.
    destruct (handle_final_segment C r w Hr) as (seg & Ht & Hc & _ & Hn).
    unfold P. rewrite Ht, callback_calls_app, Hc, Hcb, Hw2, (Hn Hcb). done. }
  assert (H0 : P (Pipeline.start e c)) by done.
  split.
  - by apply (P_run C P).
  - intros fuel w' Hs. by apply (P_shutdown C P) in Hs.
Qed.

Lemma no_callback_no_effect_witness :
  let C := Pipeline.Config (Pipeline.scripted (lit "bye")) None false false
             (λ _, PyFloat 0 0) in
  let w := Pipeline.run C (Pipeline.start [] 7%nat)
             [Pipeline.Capture None 1%nat; Pipeline.Work] in
  Pipeline.cb w = 7%nat ∧ Pipeline.callback_calls (Pipeline.trace w) = [].
Proof.
  intros C w.
  exact (proj1 (no_callback_no_effect C [] 7%nat
                  [Pipeline.Capture None 1%nat; Pipeline.Work] eq_refl)).
Defined.

Section StopFacts.
Import Pipeline.
Context {frame engine cbstate : Type}.
Implicit Types (w : state frame engine cbstate).
Implicit Types (C : config frame engine cbstate).

Lemma worker_step_keeps C w :
  balanced w →
  balanced (worker_step C w) ∧ running (worker_step C w) = running w.
Proof.
  intros Hb. destruct (Queue.items (audio_queue w)) as [|chunk rest] eqn:Hi.
  - by rewrite worker_step_none.
  - rewrite (worker_step_some C w chunk rest) by done.
    by destruct (worker_iteration_some C w chunk rest Hi Hb)
      as (_ & _ & Hb1 & Hr1 & _).
Qed.

Lemma join_some C fuel w w1 :
  balanced w → join C fuel w = Some w1 →
  Queue.items (audio_queue w1) = [] ∧ running w1 = running w.
Proof.
  assert (Hdone : ∀ w, balanced w →
                       Queue.unfinished_tasks (audio_queue w) = 0%nat →
                       Queue.items (audio_queue w) = []).
  { intros w0 Hb Hu. unfold balanced in Hb. rewrite Hu in Hb.
    by destruct (Queue.items (audio_queue w0)). }
  revert w. induction fuel as [|fuel IH]; intros w Hb; cbn [join];
    destruct (Queue.unfinished_tasks (audio_queue w)) eqn:Hu.
  - intros [= ->]. split; [by apply Hdone | done].
  - intros Hnone. discriminate Hnone.
  - intros [= ->]. split; [by apply Hdone | done].
  - intros Hj. destruct (worker_step_keeps C w Hb) as [Hb1 Hr1].
    destruct (IH _ Hb1 Hj) as [Hi Hr]. split; [done|]. congruence.
Qed.

Lemma finish_phase_last C w :
  ∃ tr, trace (finish_phase C w)
        = tr ++ [EvStdout Stopped; EvStdout ClosingRule].
Proof.
  unfold finish_phase. cbn [log eng].
  destruct (finish _ _) as [e r]. cbn [log trace].
  eexists. by rewrite <- app_assoc.
Qed.

End StopFacts.


(** X16.  When the shutdown returns, the queue is empty, the flag is down,
    the worker's loop has ended (a further turn does nothing), a late
    capture is refused and leaves the queue empty, and the pipeline's last
    two lines are the one saying that the transcription stopped and, after
    it, the closing rule. *)
Theorem shutdown_ends_worker :
  ∀ {frame engine cbstate : Type}
    (C : Pipeline.config frame engine cbstate) e c l fuel w',
    Pipeline.shutdown C fuel (Pipeline.run C (Pipeline.start e c) l)
    = Some w' →
    Queue.items (Pipeline.audio_queue w') = []
    ∧ Pipeline.running w' = false
    ∧ Pipeline.worker_alive w' = false
    ∧ Pipeline.worker_step C w' = w'
    ∧ (∀ status chunk,
          (Pipeline.audio_callback status chunk w').2
          = Raise "CallbackStop"%string
          ∧ Pipeline.audio_queue (Pipeline.audio_callback status chunk w').1
            = Pipeline.audio_queue w')
    ∧ ∃ tr, Pipeline.trace w'
            = tr ++ [Pipeline.EvStdout Pipeline.Stopped;
                     Pipeline.EvStdout Pipeline.ClosingRule].
Proof.
  intros frame engine cbstate C e c l fuel w'.
  unfold Pipeline.shutdown, Pipeline.finalize.
  destruct (Pipeline.join C fuel _) as [w1|] eqn:Hj; [|discriminate].
  intros [= <-].
  assert (H5 : (0 < Pipeline.queue_capacity)%Z) by done.
  assert (Hb : Pipeline.balanced
                 (Pipeline.signal_handler
                    (Pipeline.run C (Pipeline.start e c) l))).
  { by destruct (run_invariant C _ e c l H5) as (_ & Hb & _). }
  destruct (join_some C fuel _ w1 Hb Hj) as [Hi Hr].
  cbn [Pipeline.signal_handler Pipeline.set_running Pipeline.running] in Hr.
  destruct (finish_phase_trace C w1) as (Hq & Hrun & _).
  assert (Hi' : Queue.items (Pipeline.audio_queue (Pipeline.finish_phase C w1))
                = []) by by rewrite Hq.
  assert (Hr' : Pipeline.running (Pipeline.finish_phase C w1) = false)
    by by rewrite Hrun.
  split_and!.
  - exact Hi'.
  - exact Hr'.
  - unfold Pipeline.worker_alive, Queue.empty. by rewrite Hr', Hi'.
  - by apply worker_step_none.
  - intros status chunk.
    destruct (audio_callback_queue status chunk (Pipeline.finish_phase C w1))
      as (_ & _ & Hqq).
    rewrite Hr' in Hqq. split; [|exact Hqq].
    unfold Pipeline.audio_callback.
    set (w2 := match status with Some _ => _ | None => _ end).
    assert (Hr2 : Pipeline.running w2 = false)
      by (subst w2; by destruct status).
    by rewrite Hr2.
  - apply finish_phase_last.
Qed.

Lemma shutdown_ends_worker_witness :
  ∃ w',
    Pipeline.shutdown (Pipeline.scripted_config (lit "bye")) 3%nat
      (Pipeline.run (Pipeline.scripted_config (lit "bye"))
         (Pipeline.start [] (Accumulator.fresh ∅))
         [Pipeline.Capture None 1%nat; Pipeline.Capture None 2%nat])
    = Some w'
    ∧ Queue.items (Pipeline.audio_queue w') = []
    ∧ Pipeline.worker_alive w' = false.
Proof.
  eexists. split; [vm_compute; reflexivity|].
  refine ((λ H, conj (proj1 H) (proj1 (proj2 (proj2 H))))
            (shutdown_ends_worker (Pipeline.scripted_config (lit "bye")) []
               (Accumulator.fresh ∅)
               [Pipeline.Capture None 1%nat; Pipeline.Capture None 2%nat]
               3%nat _ _)).
  vm_compute. reflexivity.
Defined.

(** X17.  When the worker takes a turn after every capture, no chunk is
    dropped: every captured chunk reaches the engine, in the order of
    capture, and the queue is empty afterwards. *)
Theorem worker_keeping_up_loses_nothing :
  ∀ {frame engine cbstate : Type}
    (C : Pipeline.config frame engine cbstate) e c chunks,
    let w := Pipeline.run C (Pipeline.start e c) (Runs.keeping_up chunks) in
    Pipeline.inserted (Pipeline.trace w) = chunks
    ∧ Queue.items (Pipeline.audio_queue w) = [].
Proof.
  intros frame engine cbstate C e c chunks. cbv zeta.
  assert (Hgen : ∀ w0 : Pipeline.state frame engine cbstate,
             Pipeline.running w0 = true →
             Pipeline.balanced w0 →
             Queue.items (Pipeline.audio_queue w0) = [] →
             (0 < Queue.maxsize (Pipeline.audio_queue w0))%Z →
             Pipeline.inserted
               (Pipeline.trace (Pipeline.run C w0 (Runs.keeping_up chunks)))
             = Pipeline.inserted (Pipeline.trace w0) ++ chunks
             ∧ Queue.items
                 (Pipeline.audio_queue
                    (Pipeline.run C w0 (Runs.keeping_up chunks))) = []).
  { induction chunks as [|chunk chunks IH]; intros w0 Hr Hb Hi Hm.
    - cbn. by rewrite app_nil_r.
    - change (Runs.keeping_up (chunk :: chunks))
        with ([Pipeline.Capture None chunk; Pipeline.Work]
                ++ Runs.keeping_up chunks).
      replace (Pipeline.run C w0
                 ([Pipeline.Capture None chunk; Pipeline.Work]
                    ++ Runs.keeping_up chunks))
        with (Pipeline.run C
                (Pipeline.worker_step C
                   (Pipeline.audio_callback None chunk w0).1)
                (Runs.keeping_up chunks))
        by (unfold Pipeline.run; by rewrite foldl_app).
      destruct (audio_callback_queue None chunk w0)
        as (Hr1 & (tr1 & Ht1 & Hq1 & _) & Hq).
      set (w1 := (Pipeline.audio_callback None chunk w0).1) in *.
      assert (Hfull : Queue.full (Pipeline.audio_queue w0) = false).
      { unfold Queue.full, Queue.qsize. rewrite Hi. cbn [length].
        apply andb_false_iff. right. apply Z.leb_gt. lia. }
      rewrite Hr, Hfull in Hq. cbn [negb andb] in Hq. rewrite Hi in Hq.
      cbn [app] in Hq.
      assert (Hi1 : Queue.items (Pipeline.audio_queue w1) = [chunk])
        by by rewrite Hq.
      assert (Hb1 : Pipeline.balanced w1).
      { unfold Pipeline.balanced in *. rewrite Hq. cbn.
        rewrite Hb, Hi. done. }
      rewrite (worker_step_some C w1 chunk []) by done.
      destruct (worker_iteration_some C w1 chunk [] Hi1 Hb1)
        as (Hi2 & Hm2 & Hb2 & Hr2 & tr2 & Ht2 & Hq2 & _).
      destruct (IH (Pipeline.worker_iteration C w1)) as [Hins Hitems].
      + congruence.
      + done.
      + done.
      + rewrite Hm2, Hq. done.
      + split; [|done]. rewrite Hins, Ht2, Ht1.
        change (Pipeline.EvInsert chunk :: tr2)
          with ([Pipeline.EvInsert chunk] ++ tr2).
        rewrite !inserted_app, Hq1, Hq2, !app_nil_r.
        by rewrite <- app_assoc. }
  destruct (Hgen (Pipeline.start e c)) as [Hins Hitems]; try done.
Qed.



(** X19.  A result with text whose times cannot be formatted (a time that
    is [None], say), when the output is not JSON lines: the callback has
    already been called with the span when the formatting raises, so the
    span is folded by the callback but neither printed nor written, and
    the worker prints a processing error. *)
Theorem unformattable_span_reaches_callback_only :
  ∀ {frame engine cbstate : Type}
    (C : Pipeline.config frame engine cbstate) f w chunk e1 e2 r c' x,
    Pipeline.transcript_callback C = Some f →
    Pipeline.json_output C = false →
    Pipeline.insert_audio_chunk (Pipeline.online C) (Pipeline.eng w) chunk
    = (e1, Return tt) →
    Pipeline.process_iter (Pipeline.online C) e1 = (e2, Return r) →
    py_truthy (text r) = true →
    f (Pipeline.cb w) (start_time r) (end_time r) (text r)
    = (c', Return tt) →
    Pipeline.format_span (start_time r) (end_time r) = Raise x →
    let w' := Pipeline.process_chunk C chunk w in
    Pipeline.trace w'
    = Pipeline.trace w
      ++ [Pipeline.EvInsert chunk; Pipeline.EvProcessIter;
          Pipeline.EvCallback (start_time r) (end_time r) (text r);
          Pipeline.EvStderr (Pipeline.ErrProcessing x)]
    ∧ Pipeline.cb w' = c'.
Proof.
  intros frame engine cbstate C f w chunk e1 e2 r c' x
    Hcb Hjson Hins Hproc Htext Hf Hfmt. cbv zeta.
  unfold Pipeline.process_chunk, Pipeline.try_chunk. rewrite Hins.
  cbn [Pipeline.log Pipeline.set_eng Pipeline.eng]. rewrite Hproc.
  unfold Pipeline.handle_result, Pipeline.call_callback, Pipeline.write_span,
    Pipeline.print_span.
  rewrite Htext, Hcb, Hjson.
  cbn [Pipeline.log Pipeline.set_eng Pipeline.cb negb orb]. rewrite Hf, Hfmt.
  destruct (Pipeline.output_file C); cbn; (split; [|done]);
    by rewrite <- !app_assoc.
Qed.

Lemma unformattable_span_reaches_callback_only_witness :
  let r := Span PNone PNone (PStr (lit "word")) in
  let C := Runs.plain_config r (Span PNone PNone PNone) in
  let w' := Pipeline.process_chunk C 1%nat
              (Pipeline.start tt (Accumulator.fresh ∅)) in
  Pipeline.trace w'
  = [Pipeline.EvInsert 1%nat; Pipeline.EvProcessIter;
     Pipeline.EvCallback PNone PNone (PStr (lit "word"));
     Pipeline.EvStderr (Pipeline.ErrProcessing "TypeError")]
  ∧ Pipeline.cb w'
    = (Pipeline.server_callback Pipeline.quiet_env (Accumulator.fresh ∅)
         PNone PNone (PStr (lit "word"))).1.
Proof.
  intros r C.
  apply (unformattable_span_reaches_callback_only C
           (Pipeline.server_callback Pipeline.quiet_env)
           (Pipeline.start tt (Accumulator.fresh ∅)) 1%nat tt tt r
           _ "TypeError"%string);
    reflexivity.
Defined.

Section PyAudioFacts.
Import Pipeline.
Context {engine cbstate : Type}.
Implicit Types (w : state (list pyfloat) engine cbstate).

Lemma pyaudio_as_capture audio_int16 w :
  running w = true →
  PyAudio.audio_callback audio_int16 w
  = ((audio_callback None (PyAudio.to_float32s audio_int16) w).1,
     PyAudio.paContinue).
Proof.
  intros Hr. unfold PyAudio.audio_callback, audio_callback.
  rewrite Hr. cbn [negb]. by destruct (Queue.put_nowait _ _).
Qed.

Lemma pyaudio_captures C w datas :
  running w = true →
  foldl (λ w d, (PyAudio.audio_callback d w).1) w datas
  = run C w (Capture None <$> (PyAudio.to_float32s <$> datas))
  ∧ running (foldl (λ w d, (PyAudio.audio_callback d w).1) w datas) = true.
Proof.
  revert w. induction datas as [|d datas IH]; intros w Hr; [done|].
  cbn [foldl fmap list_fmap run act].
  rewrite pyaudio_as_capture by done. cbn [fst].
  destruct (audio_callback_queue None (PyAudio.to_float32s d) w)
    as (Hr1 & _).
  apply IH. by rewrite Hr1.
Qed.

End PyAudioFacts.

(** X20.  The capture callback of the other audio library behaves on the
    queue as the first one does: while the pipeline runs it converts the
    16-bit samples and enqueues the chunk unless the queue is full,
    answering that capture continues, so that after any captures the queue
    holds the first chunks up to its capacity; once the flag is down it
    leaves the state alone and answers that capture is complete. *)
Theorem pyaudio_capture_bounded :
  ∀ {engine cbstate : Type}
    (n : Z) (e : engine) (c : cbstate) (datas : list (list Z)),
    (0 < n)%Z →
    Queue.items
      (Pipeline.audio_queue
         (foldl (λ w d, (PyAudio.audio_callback d w).1)
            (Pipeline.start_with n e c) datas))
    = take (Z.to_nat n) (PyAudio.to_float32s <$> datas)
    ∧ (∀ (w : Pipeline.state (list pyfloat) engine cbstate) d,
          Pipeline.running w = true →
          (PyAudio.audio_callback d w).2 = PyAudio.paContinue)
    ∧ (∀ (w : Pipeline.state (list pyfloat) engine cbstate) d,
          Pipeline.running w = false →
          PyAudio.audio_callback d w = (w, PyAudio.paComplete)).
Proof.
  intros engine cbstate n e c datas Hn. split_and!.
  - set (C := Pipeline.Config
                (Pipeline.Asr (λ e _, (e, Return tt))
                   (λ e, (e, Return (Span PNone PNone PNone)))
                   (λ e, (e, Return (Span PNone PNone PNone))))
                None false false (λ _, PyFloat 0 0)
              : Pipeline.config (list pyfloat) engine cbstate).
    destruct (pyaudio_captures C (Pipeline.start_with n e c) datas eq_refl)
      as [-> _].
    rewrite run_captures; cbn; try done. lia.
  - intros w d Hr. by rewrite pyaudio_as_capture.
  - intros w d Hr. unfold PyAudio.audio_callback. by rewrite Hr.
Qed.

Lemma pyaudio_capture_bounded_witness :
  Queue.items
    (Pipeline.audio_queue
       (foldl (λ w d, (PyAudio.audio_callback d w).1)
          (Pipeline.start_with 2 tt tt)
          [[0; 16384]%Z; [-32768]%Z; [1]%Z]))
  = [[PyFloat 0 (-15); PyFloat 16384 (-15)]; [PyFloat (-32768) (-15)]].
Proof.
  assert (H2 : (0 < 2)%Z) by lia.
  exact (proj1 (pyaudio_capture_bounded 2 tt tt
                  [[0; 16384]%Z; [-32768]%Z; [1]%Z] H2)).
Defined.

(** ** Transcribing an audio file *)

Section ChunkFacts.
Import FileMode.
Context {A : Type}.
Implicit Types (audio : list A).

Lemma concat_takes audio (k m : nat) :
  concat ((λ j, take k (drop (j * k) audio)) <$> seq 0 m)
  = take (m * k) audio.
Proof.
  induction m as [|m IH]; [done|].
  rewrite seq_S, fmap_app, concat_app, IH. cbn [fmap list_fmap concat Nat.add].
  rewrite app_nil_r, take_take_drop. f_equal. lia.
Qed.

Lemma range_bounds (len : nat) (n : Z) :
  (0 < n)%Z →
  let k := Z.to_nat n in
  let m := Z.to_nat ((Z.of_nat len + n - 1) / n) in
  (len ≤ m * k)%nat ∧ (∀ j, (j < m)%nat → (j * k < len)%nat).
Proof.
  intros Hn k m.
  pose proof (Z.div_mod (Z.of_nat len + n - 1) n ltac:(lia)) as Hdm.
  pose proof (Z.mod_pos_bound (Z.of_nat len + n - 1) n Hn) as Hmod.
  set (q := ((Z.of_nat len + n - 1) / n)%Z) in *.
  assert (Hq0 : (0 ≤ q)%Z) by (apply Z.div_pos; lia).
  assert (Hm : Z.of_nat m = q) by (subst m; lia).
  assert (Hk : Z.of_nat k = n) by (subst k; lia).
  clearbody m k q. split.
  - apply Nat2Z.inj_le. rewrite Nat2Z.inj_mul, Hm, Hk. nia.
  - intros j Hj. apply Nat2Z.inj_lt. rewrite Nat2Z.inj_mul, Hk.
    assert (Z.of_nat j + 1 ≤ q)%Z by lia. nia.
Qed.

Lemma chunks_positive audio (n : Z) :
  (0 < n)%Z →
  chunks audio n
  = Return ((λ j, take (Z.to_nat n) (drop (j * Z.to_nat n) audio))
              <$> seq 0 (Z.to_nat ((Z.of_nat (length audio) + n - 1) / n))).
Proof.
  intros Hn. unfold chunks, py_range0.
  rewrite (proj2 (Z.eqb_neq n 0)) by lia.
  rewrite (proj2 (Z.ltb_lt 0 n)) by lia.
  f_equal. rewrite <- list_fmap_compose. apply list_fmap_ext.
  intros i j _. cbn. unfold slice.
  replace (Z.to_nat (Z.of_nat j * n)) with (j * Z.to_nat n)%nat by lia.
  replace (Z.to_nat (Z.of_nat j * n + n))
    with (j * Z.to_nat n + Z.to_nat n)%nat by lia.
  symmetry. apply take_drop_commute.
Qed.

End ChunkFacts.

(** X21.  The chunks a file is cut into: for a positive chunk size they
    are, in order, a partition of the audio (nothing lost, nothing
    repeated), none of them empty or longer than the chunk size, and all
    but the last of exactly that size; a chunk size of zero is refused
    with an error before anything is processed; a negative one gives no
    chunk at all. *)
Theorem chunks_cover_audio :
  ∀ {A : Type} (audio : list A) (n : Z),
    ((0 < n)%Z →
     ∃ cs, FileMode.chunks audio n = Return cs
           ∧ concat cs = audio
           ∧ Forall (λ c, c ≠ [] ∧ (length c ≤ Z.to_nat n)%nat) cs
           ∧ ∀ i c, cs !! i = Some c → (S i < length cs)%nat →
                    length c = Z.to_nat n)
    ∧ (n = 0%Z → FileMode.chunks audio n = Raise "ValueError"%string)
    ∧ ((n < 0)%Z → FileMode.chunks audio n = Return []).
Proof.
  intros A audio n. split_and!.
  - intros Hn. destruct (range_bounds (length audio) n Hn) as [Hlen Hlt].
    set (k := Z.to_nat n) in *.
    set (m := Z.to_nat ((Z.of_nat (length audio) + n - 1) / n)) in *.
    eexists. split; [by apply chunks_positive|]. fold k m. split_and!.
    + rewrite concat_takes. by apply take_ge.
    + apply Forall_fmap, Forall_forall. intros j Hj.
      apply elem_of_seq in Hj as [_ Hj]. cbn [Nat.add] in Hj.
      specialize (Hlt j Hj). cbn. split.
      * intros Hnil. apply (f_equal length) in Hnil.
        rewrite length_take, length_drop in Hnil. cbn in Hnil. lia.
      * rewrite length_take. lia.
    + intros i c Hc Hi. rewrite length_fmap, length_seq in Hi.
      rewrite list_lookup_fmap in Hc.
      destruct (seq 0 m !! i) as [j|] eqn:Hj; [|done].
      apply lookup_seq in Hj as [-> _]. cbn in Hc. injection Hc as <-.
      specialize (Hlt (S i) Hi). rewrite length_take, length_drop. lia.
  - intros ->. reflexivity.
  - intros Hn. unfold FileMode.chunks, FileMode.py_range0.
    rewrite (proj2 (Z.eqb_neq n 0)) by lia.
    by rewrite (proj2 (Z.ltb_ge 0 n)) by lia.
Qed.

Lemma chunks_cover_audio_witness :
  FileMode.chunks [1; 2; 3; 4; 5]%nat 2 = Return [[1; 2]; [3; 4]; [5]]%nat
  ∧ FileMode.chunks [1; 2; 3]%nat 0 = Raise "ValueError"%string
  ∧ FileMode.chunks [1; 2; 3]%nat (-1) = Return [].
Proof.
  assert (H2 : (0 < 2)%Z) by lia.
  assert (Hm : (-1 < 0)%Z) by lia.
  destruct (chunks_cover_audio [1; 2; 3; 4; 5]%nat 2) as (Hpos & _ & _).
  destruct (chunks_cover_audio [1; 2; 3]%nat 0) as (_ & Hzero & _).
  destruct (chunks_cover_audio [1; 2; 3]%nat (-1)) as (_ & _ & Hneg).
  split_and!.
  - destruct (Hpos H2) as (cs & Hcs & _). reflexivity.
  - exact (Hzero eq_refl).
  - exact (Hneg Hm).
Defined.

Section FileFacts.
Import FileMode.
Context {sample engine : Type}.
Variable A : Pipeline.asr (list sample) engine.
Implicit Types (st : fstate sample engine).






End FileFacts.



(** ** The final marker of the JSON lines *)

Section RecordFacts.
Import Pipeline.
Context {frame engine cbstate : Type}.
Implicit Types (w : state frame engine cbstate).
Implicit Types (C : config frame engine cbstate).

Lemma file_records_app (tr1 tr2 : list (event frame)) :
  Runs.file_records (tr1 ++ tr2)
  = Runs.file_records tr1 ++ Runs.file_records tr2.
Proof. unfold Runs.file_records. apply omap_app. Qed.

Lemma neutral_no_record (ev : event frame) :
  Runs.neutral ev → Runs.file_records [ev] = [].
Proof. destruct ev as [| | | | [] | |]; done. Qed.

Lemma handle_result_records C r w :
  ∃ seg,
    trace (handle_result C r w).1 = trace w ++ seg
    ∧ Forall (λ obj, message_field obj "final" = None)
        (Runs.file_records seg).
Proof.
  destruct r as [st et tx].
  unfold handle_result, call_callback, write_span, print_span.
  cbn [text start_time end_time].
  destruct (py_truthy tx);
    [|exists []; split; [by rewrite app_nil_r | constructor]].
  destruct (transcript_callback C) as [f|];
    [destruct (f _ _ _ _) as [c' [?|x]]|];
    destruct (output_file C), (json_output C);
    cbn [negb orb fst log set_cb trace cb];
    destruct (format_span st et) as [?|y];
    cbn [negb orb fst log set_cb trace cb];
    rewrite <- ?app_assoc;
    (eexists; split;
     [first [reflexivity | symmetry; apply app_nil_r]|]);
    repeat constructor.
Qed.

Lemma finish_phase_records C w :
  ∃ last_records,
    Runs.file_records (trace (finish_phase C w))
    = Runs.file_records (trace w) ++ last_records
    ∧ (last_records = []
       ∨ ∃ obj, last_records = [obj]
                ∧ message_field obj "final" = Some (PBool true)).
Proof.
  unfold finish_phase. cbn [log eng].
  destruct (finish _ _) as [e [[st et tx]|x]];
    cbn [log set_eng trace]; rewrite !file_records_app; cbn [app].
  2:{ exists []. cbn. rewrite !app_nil_r. split; [done | by left]. }
  unfold handle_final, call_callback. cbn [text start_time end_time].
  destruct (py_truthy tx).
  2:{ exists []. cbn [trace log set_eng]. rewrite !file_records_app. cbn.
      rewrite !app_nil_r. split; [done | by left]. }
  destruct (transcript_callback C) as [f|];
    [destruct (f _ _ _ _) as [c' [?|y]]|];
    destruct (output_file C) eqn:Hout, (json_output C) eqn:Hjson;
    cbn [negb orb fst log set_cb set_eng trace cb];
    rewrite ?file_records_app; cbn; rewrite ?app_nil_r;
    first [ by (exists []; rewrite ?app_nil_r; split; [done | by left])
          | (eexists; split; [reflexivity|]; right; eexists;
             split; [reflexivity|]; reflexivity) ].
Qed.

End RecordFacts.

(** X23.  The JSON lines written to the output file: no record written
    while the pipeline runs carries the final marker; the shutdown adds at
    most one record, after all the others, and that record carries the
    marker set to true. *)
Theorem final_marker_only_on_last_record :
  ∀ {frame engine cbstate : Type}
    (C : Pipeline.config frame engine cbstate) e c l,
    Forall (λ obj, Pipeline.message_field obj "final" = None)
      (Runs.file_records
         (Pipeline.trace (Pipeline.run C (Pipeline.start e c) l)))
    ∧ ∀ fuel w',
        Pipeline.shutdown C fuel (Pipeline.run C (Pipeline.start e c) l)
        = Some w' →
        ∃ records last_records,
          Runs.file_records (Pipeline.trace w') = records ++ last_records
          ∧ Forall (λ obj, Pipeline.message_field obj "final" = None) records
          ∧ (last_records = []
             ∨ ∃ obj, last_records = [obj]
                      ∧ Pipeline.message_field obj "final"
                        = Some (PBool true)).
Proof.
  intros frame engine cbstate C e c l.
  set (P := λ w : Pipeline.state frame engine cbstate,
         Forall (λ obj, Pipeline.message_field obj "final" = None)
           (Runs.file_records (Pipeline.trace w))).
  assert (Hlog : ∀ w ev, Runs.neutral ev → P w → P (Pipeline.log ev w)).
  { intros w ev Hev Hw. unfold P. cbn [Pipeline.log Pipeline.trace].
    rewrite file_records_app, (neutral_no_record ev Hev).
    by rewrite app_nil_r. }
  assert (Hres : ∀ r w, P w → py_truthy (text r) = true →
                        P (Pipeline.handle_result C r w).1).
  { intros r w Hw _.
    destruct (handle_result_records C r w) as (seg & Ht & Hseg).
    unfold P. rewrite Ht, file_records_app. by apply Forall_app. }
  assert (H0 : P (Pipeline.start e c)) by constructor.
  split.
  - by apply (P_run C P).
  - intros fuel w'. unfold Pipeline.shutdown, Pipeline.finalize.
    destruct (Pipeline.join C fuel _) as [w1|] eqn:Hj; [|discriminate].
    intros [= <-].
    assert (Hw1 : P w1).
    { refine (P_join C P _ _ _ _ fuel _ w1 _ Hj); try done.
      unfold Pipeline.signal_handler. unfold P.
      cbn [Pipeline.set_running Pipeline.trace].
      apply Hlog; [done|]. by apply (P_run C P). }
    destruct (finish_phase_records C w1) as (last_records & Hrec & Hlast).
    exists (Runs.file_records (Pipeline.trace w1)), last_records.
    by split_and!.
Qed.

Lemma final_marker_only_on_last_record_witness :
  let C := Runs.json_config
             (Span (PFloat (PyFloat 0 0)) (PFloat (PyFloat 1 0))
                (PStr (lit "word")))
             (Span PNone PNone (PStr (lit "bye"))) in
  ∃ w',
    Pipeline.shutdown C 2%nat
      (Pipeline.run C (Pipeline.start tt (Accumulator.fresh ∅))
         [Pipeline.Capture None 1%nat])
    = Some w'
    ∧ ∃ records last_records,
          Runs.file_records (Pipeline.trace w') = records ++ last_records
          ∧ Forall (λ obj, Pipeline.message_field obj "final" = None) records
          ∧ (last_records = []
             ∨ ∃ obj, last_records = [obj]
                      ∧ Pipeline.message_field obj "final"
                        = Some (PBool true)).
Proof.
  intros C.
  destruct (Pipeline.shutdown C 2%nat
      (Pipeline.run C (Pipeline.start tt (Accumulator.fresh ∅))
         [Pipeline.Capture None 1%nat])) as [w'|] eqn:Hs.
  - exists w'. split; [reflexivity|].
    exact (proj2 (final_marker_only_on_last_record C tt (Accumulator.fresh ∅)
                     [Pipeline.Capture None 1%nat]) 2%nat w' Hs).
  - vm_compute in Hs. discriminate Hs.
Defined.

(** ** Subscribers along the folds *)

Section SubscriberFacts.
Import Accumulator.

Lemma fold_subscribers E s sp :
  connections (fold E s sp) ⊆ connections s
  ∧ ∀ a, a ∈ attempts (fold E s sp) →
         a ∈ attempts s ∨ a_conn a ∈ connections s.
Proof.
  destruct (Transcript.kept_text sp) as [t|] eqn:Hk.
  - destruct (fold_some E s sp t Hk) as (s2 & -> & _ & Hc & _ & Ha & _).
    assert (Hb : ∀ now tx,
               connections (Hub.broadcast_full_transcript E now tx s2)
               ⊆ connections s
               ∧ ∀ a, a ∈ attempts (Hub.broadcast_full_transcript E now tx s2)
                      → a ∈ attempts s ∨ a_conn a ∈ connections s).
    { intros now tx. split.
      - intros c' Hc'. apply broadcast_connections in Hc' as [Hc' _].
        by rewrite <- Hc.
      - intros a. rewrite broadcast_attempts, elem_of_app, Ha, <- Hc.
        intros [Hin|Hin]; [by left|right].
        apply list_elem_of_fmap in Hin as (c' & -> & Hc').
        apply elem_of_bfilter in Hc' as [Hc' _].
        by apply elem_of_elements in Hc'. }
    destruct (loop E); try apply Hb.
    rewrite Hc, Ha. split; [done|]. intros a Hin. by left.
  - rewrite fold_none by done. split; [done|]. intros a Hin. by left.
Qed.

End SubscriberFacts.

(** X24.  Folding spans never adds a subscriber: as more spans are folded
    the set of subscribers only shrinks, and every send awaited while the
    further spans are folded goes to a connection that was still
    subscribed before them; a connection evicted by one broadcast is not
    sent to by a later one. *)
Theorem folds_only_shrink_subscribers :
  ∀ E conns sps more,
    let s := Accumulator.fold_all E (Accumulator.fresh conns) sps in
    let s' := Accumulator.fold_all E (Accumulator.fresh conns) (sps ++ more) in
    connections s' ⊆ connections s
    ∧ connections s ⊆ conns
    ∧ ∀ a, a ∈ attempts s' → a ∈ attempts s ∨ a_conn a ∈ connections s.
Proof.
  intros E conns sps more. cbv zeta.
  assert (Hgen : ∀ s0 l,
             connections (Accumulator.fold_all E s0 l) ⊆ connections s0
             ∧ ∀ a, a ∈ attempts (Accumulator.fold_all E s0 l) →
                    a ∈ attempts s0 ∨ a_conn a ∈ connections s0).
  { intros s0 l. induction l as [|sp l [IHc IHa]] using rev_ind.
    - split; [done|]. intros a Hin. by left.
    - rewrite fold_all_step.
      destruct (fold_subscribers E (Accumulator.fold_all E s0 l) sp)
        as [Hc Ha].
      split; [set_solver|]. intros a Hin.
      destruct (Ha a Hin) as [Hin'|Hin']; [by apply IHa|].
      right. by apply IHc. }
  unfold Accumulator.fold_all. rewrite foldl_app.
  fold (Accumulator.fold_all E (Accumulator.fresh conns) sps).
  set (s := Accumulator.fold_all E (Accumulator.fresh conns) sps).
  destruct (Hgen s more) as [Hc Ha].
  destruct (Hgen (Accumulator.fresh conns) sps) as [Hc0 _].
  split_and!; [exact Hc | exact Hc0 | exact Ha].
Qed.


(** When the model or the audio cannot be loaded, [process_audio_file]
    prints the error and returns without calling the engine. *)
Remark process_audio_file_load_errors :
  ∀ {sample engine : Type} (A : Pipeline.asr (list sample) engine) x,
    (∀ loaded, FileMode.process_audio_file A (Raise x) loaded
               = ([FileMode.EvPrint (FileMode.ModelError x)], Return tt))
    ∧ (∀ e, FileMode.process_audio_file A (Return e) (Raise x)
            = ([FileMode.EvPrint (FileMode.AudioError x)], Return tt)).
Proof. intros sample engine A x. split; reflexivity. Qed.
